(** * Claude-to-Kiro conversion: a shallow embedding and its properties

    The development follows the converter ([convertClaudeToKiro] and its
    helpers [normalizeName], [uniqueName], [transformContentForKiro],
    [convertMcpServers]) and the bundle writer ([writeKiroBundle],
    [validatePathSafe]).

    Strings are lists of code units.  The embedding keeps the code units
    below 256 (the Latin-1 range): [ascii] stands for one code unit, and the
    classes of the regular expressions ([\s], [\b], [a-z], ...) and
    [toLowerCase] are written out for that range.

    A regular expression is embedded together with its replacement, as the
    function that tells whether and how it matches at one position; global
    replacement is one left-to-right scan with that function.  The name
    registry is a finite set that is threaded through the allocation of the
    skill names; the probing loop of [uniqueName] takes a bound on its
    iterations, which is shown never to be reached.  The writer is a
    function into the list of the calls it makes to the file utilities and
    the console, together with its outcome: done, or raised. *)

From Stdlib Require Import Ascii String List ZArith Lia Bool.
From stdpp Require Import gmap strings list fin_maps pretty.

Set Warnings "-register-all,-clear-no-such-hyp".

Local Open Scope char_scope.
Local Open Scope list_scope.

(** ** Code units and character classes *)

Module Chars.

Definition code (c : ascii) : N := N_of_ascii c.

Definition inRange (lo hi : N) (c : ascii) : bool :=
  ((lo <=? code c) && (code c <=? hi))%N.

Definition isLower (c : ascii) : bool := inRange 97 122 c.
Definition isUpper (c : ascii) : bool := inRange 65 90 c.
Definition isDigit (c : ascii) : bool := inRange 48 57 c.
Definition isAlpha (c : ascii) : bool := isLower c || isUpper c.

(** [\s] of a JavaScript regular expression, and the characters removed by
    [String.prototype.trim]: TAB, LF, VT, FF, CR, space and NBSP. *)
Definition isSpace (c : ascii) : bool :=
  inRange 9 13 c || (code c =? 32)%N || (code c =? 160)%N.

(** Line terminators, after which [^] matches under the [m] flag. *)
Definition isLineTerminator (c : ascii) : bool :=
  (code c =? 10)%N || (code c =? 13)%N.

(** [\w]: the characters between which [\b] finds no boundary. *)
Definition isWord (c : ascii) : bool :=
  isLower c || isUpper c || isDigit c || Ascii.eqb c "_".

(** [toLowerCase] on one code unit: A-Z, and the Latin-1 capitals
    U+00C0..U+00DE without the multiplication sign U+00D7. *)
Definition toLower (c : ascii) : ascii :=
  if isUpper c || (inRange 192 222 c && negb (code c =? 215)%N)
  then ascii_of_N (code c + 32)
  else c.

End Chars.
Import Chars.

(** ** Strings as lists of code units *)

(** The double quote. *)
Definition dquote : ascii := "034".

(** A literal. *)
Definition lit (s : string) : list ascii := list_ascii_of_string s.

Fixpoint dropWhile (p : ascii -> bool) (l : list ascii) : list ascii :=
  match l with
  | [] => []
  | c :: t => if p c then dropWhile p t else l
  end.

Fixpoint takeWhile (p : ascii -> bool) (l : list ascii) : list ascii :=
  match l with
  | [] => []
  | c :: t => if p c then c :: takeWhile p t else []
  end.

Definition trimStart (l : list ascii) : list ascii := dropWhile isSpace l.
Definition trimEnd (l : list ascii) : list ascii :=
  rev (dropWhile isSpace (rev l)).
Definition trim (l : list ascii) : list ascii := trimEnd (trimStart l).

Definition toLowerCase (l : list ascii) : list ascii := map toLower l.

(** [s.startsWith(p)] *)
Fixpoint startsWith (p l : list ascii) : bool :=
  match p, l with
  | [], _ => true
  | _ :: _, [] => false
  | a :: p', b :: l' => Ascii.eqb a b && startsWith p' l'
  end.

(** [s.includes(p)] *)
Fixpoint includes (p l : list ascii) : bool :=
  startsWith p l ||
  match l with
  | [] => false
  | _ :: t => includes p t
  end.

(** [s.lastIndexOf(c)] for a one-character needle: the index of the last
    occurrence, or [-1]. *)
Fixpoint lastIndexFrom (c : ascii) (l : list ascii) (i acc : Z) : Z :=
  match l with
  | [] => acc
  | x :: t => lastIndexFrom c t (i + 1) (if Ascii.eqb x c then i else acc)
  end.

Definition lastIndexOf (c : ascii) (l : list ascii) : Z :=
  lastIndexFrom c l 0 (-1).

(** [s.slice(0, n)] *)
Definition slice0 (n : Z) (l : list ascii) : list ascii :=
  firstn (Z.to_nat n) l.

(** ** The name normalizer *)

Module Normalizer.

Definition KIRO_SKILL_NAME_MAX_LENGTH : Z := 64.

(** [s.replace(/[class]+/g, r)]: every maximal run of characters of the
    class becomes the one character [r] (a hyphen in [normalizeName]).
    [inrun] tells that the previous character belonged to a run already
    replaced. *)
Fixpoint replaceRunsGo (p : ascii -> bool) (r : ascii) (inrun : bool)
    (l : list ascii) : list ascii :=
  match l with
  | [] => []
  | c :: t =>
      if p c
      then (if inrun then replaceRunsGo p r true t
            else r :: replaceRunsGo p r true t)
      else c :: replaceRunsGo p r false t
  end.

Definition replaceRuns (p : ascii -> bool) (l : list ascii) : list ascii :=
  replaceRunsGo p "-" false l.

Definition isHyphen (c : ascii) : bool := Ascii.eqb c "-".
(** [[\\/]] *)
Definition isSlash (c : ascii) : bool := Ascii.eqb c "\" || Ascii.eqb c "/".
(** [[:\s]] *)
Definition isColonSpace (c : ascii) : bool := Ascii.eqb c ":" || isSpace c.
(** [[a-z0-9_-]] *)
Definition isNameChar (c : ascii) : bool :=
  isLower c || isDigit c || Ascii.eqb c "_" || Ascii.eqb c "-".
(** [[^a-z0-9_-]] *)
Definition notNameChar (c : ascii) : bool := negb (isNameChar c).

(** [s.replace(/^-+|-+$/g, "")] *)
Definition stripHyphens (l : list ascii) : list ascii :=
  rev (dropWhile isHyphen (rev (dropWhile isHyphen l))).

(** [s.replace(/-+$/g, "")] *)
Definition stripTrailingHyphens (l : list ascii) : list ascii :=
  rev (dropWhile isHyphen (rev l)).

(** The chain of replacements applied to the trimmed input, before the
    length is enforced. *)
Definition preTruncation (trimmed : list ascii) : list ascii :=
  stripHyphens
    (replaceRuns isHyphen
       (replaceRuns notNameChar
          (replaceRuns isColonSpace
             (replaceRuns isSlash (toLowerCase trimmed))))).

(** Enforce the maximal length (truncate at the last hyphen). *)
Definition enforceMaxLength (normalized : list ascii) : list ascii :=
  if (KIRO_SKILL_NAME_MAX_LENGTH <? Z.of_nat (length normalized))%Z then
    let normalized1 := slice0 KIRO_SKILL_NAME_MAX_LENGTH normalized in
    let lastHyphen := lastIndexOf "-" normalized1 in
    let normalized2 :=
      if (0 <? lastHyphen)%Z then slice0 lastHyphen normalized1
      else normalized1 in
    stripTrailingHyphens normalized2
  else normalized.

(** [/^[a-z]/.test(s)] *)
Definition startsWithLower (l : list ascii) : bool :=
  match l with
  | c :: _ => isLower c
  | [] => false
  end.

Definition normalizeName (value : list ascii) : list ascii :=
  let trimmed := trim value in
  match trimmed with
  | [] => lit "item"
  | _ =>
      let normalized := enforceMaxLength (preTruncation trimmed) in
      if (length normalized =? 0)%nat || negb (startsWithLower normalized)
      then lit "item"
      else normalized
  end.

End Normalizer.
Import Normalizer.

(** ** The content transformation engine *)

Module Transform.

(** A matcher is a regular expression together with its replacement: given
    the code unit before the current position ([None] at the start of the
    text) and the text from the current position on, it tells whether the
    expression matches there, how many code units the match spans and what
    replaces them. *)
Definition matcher : Type :=
  option ascii -> list ascii -> option (nat * list ascii).

(** [s.replace(re, f)] for a global expression: positions are tried from left
    to right; a match is replaced and the search resumes behind it.  [skip]
    counts the code units of the current match still to be passed over. *)
Fixpoint replaceGo (m : matcher) (skip : nat) (prev : option ascii)
    (l : list ascii) : list ascii :=
  match l with
  | [] => []
  | c :: t =>
      match skip with
      | S k => replaceGo m k (Some c) t
      | O =>
          match m prev l with
          | Some (S n, out) => out ++ replaceGo m n (Some c) t
          | Some (O, out) => out ++ c :: replaceGo m 0 (Some c) t
          | None => c :: replaceGo m 0 (Some c) t
          end
      end
  end.

Definition replaceAll (m : matcher) (l : list ascii) : list ascii :=
  replaceGo m 0 None l.

(** [^] under the [m] flag. *)
Definition atLineStart (prev : option ascii) : bool :=
  match prev with
  | None => true
  | Some c => isLineTerminator c
  end.

(** [\b] between two neighbouring positions. *)
Definition isWordOpt (c : option ascii) : bool :=
  match c with
  | Some c => isWord c
  | None => false
  end.

Definition wordBoundary (before after : option ascii) : bool :=
  xorb (isWordOpt before) (isWordOpt after).

(** *** Pass 1: Task agent calls

    The pattern is anchored at the start of a line (flag [m]) and reads: a
    prefix of white space, an optional hyphen and white space again; the
    word Task; white space, at least once; an agent name, a lower-case
    letter followed by lower-case letters, digits and hyphens; an opening
    parenthesis; the arguments, at least one character other than a closing
    parenthesis; a closing parenthesis.  Every quantifier is greedy and is
    followed by a character outside its class, so that the match at a
    position is unique. *)

(** [[a-z0-9-]] *)
Definition isAgentChar (c : ascii) : bool :=
  isLower c || isDigit c || Ascii.eqb c "-".

Definition notRParen (c : ascii) : bool := negb (Ascii.eqb c ")").

Definition taskReplacement (pre agentName args : list ascii) : list ascii :=
  pre ++ lit "Use the use_subagent tool to delegate to the "
      ++ normalizeName agentName ++ lit " agent: " ++ trim args.

Definition matchTask : matcher := fun prev l =>
  if atLineStart prev then
    let ws1 := takeWhile isSpace l in
    let r1 := dropWhile isSpace l in
    let dash := match r1 with "-" :: _ => ["-"] | _ => [] end in
    let r2 := match r1 with "-" :: t => t | _ => r1 end in
    let ws2 := takeWhile isSpace r2 in
    let r3 := dropWhile isSpace r2 in
    let pre := ws1 ++ dash ++ ws2 in
    match r3 with
    | "T" :: "a" :: "s" :: "k" :: r4 =>
        let ws3 := takeWhile isSpace r4 in
        match ws3, dropWhile isSpace r4 with
        | _ :: _, c :: r5 =>
            if isLower c then
              let nameTail := takeWhile isAgentChar r5 in
              match dropWhile isAgentChar r5 with
              | "(" :: r6 =>
                  let args := takeWhile notRParen r6 in
                  match args, dropWhile notRParen r6 with
                  | _ :: _, ")" :: _ =>
                      Some (length pre + 4 + length ws3 + 1 + length nameTail
                            + 1 + length args + 1,
                            taskReplacement pre (c :: nameTail) args)
                  | _, _ => None
                  end
              | _ => None
              end
            else None
        | _, _ => None
        end
    | _ => None
    end
  else None.

(** *** Pass 2: paths

    Two literal patterns, the home form [~/.claude/] and the repository form
    [.claude/], each behind a look-behind that asks for the start of a line,
    white space, or a quote character (double quote, single quote,
    backtick). *)

Definition isQuote (c : ascii) : bool :=
  Ascii.eqb c dquote || Ascii.eqb c "'" || Ascii.eqb c "`".

Definition pathBoundary (prev : option ascii) : bool :=
  match prev with
  | None => true
  | Some c => isLineTerminator c || isSpace c || isQuote c
  end.

Definition matchLiteral (bnd : option ascii -> bool) (pat repl : list ascii)
  : matcher := fun prev l =>
  if bnd prev && startsWith pat l then Some (length pat, repl) else None.

Definition matchHomePath : matcher :=
  matchLiteral pathBoundary (lit "~/.claude/") (lit "~/.kiro/").
Definition matchRepoPath : matcher :=
  matchLiteral pathBoundary (lit ".claude/") (lit ".kiro/").

(** *** Pass 3: slash command references

    Behind the start of a line or white space: an optional backtick, a slash,
    a command name (a letter followed by letters, digits, underscores, colons
    and hyphens) and an optional backtick. *)

Definition refBoundary (prev : option ascii) : bool :=
  match prev with
  | None => true
  | Some c => isLineTerminator c || isSpace c
  end.

(** [[a-zA-Z0-9_:-]] *)
Definition isCmdChar (c : ascii) : bool :=
  isAlpha c || isDigit c || Ascii.eqb c "_" || Ascii.eqb c ":"
  || Ascii.eqb c "-".

Definition skillReplacement (cmdName : list ascii) : list ascii :=
  lit "the " ++ normalizeName cmdName ++ lit " skill".

Definition matchSlashRef : matcher := fun prev l =>
  if refBoundary prev then
    let tick1 := match l with "`" :: _ => 1 | _ => 0 end in
    let r1 := match l with "`" :: t => t | _ => l end in
    match r1 with
    | "/" :: c :: r2 =>
        if isAlpha c then
          let nameTail := takeWhile isCmdChar r2 in
          let tick2 :=
            match dropWhile isCmdChar r2 with "`" :: _ => 1 | _ => 0 end in
          Some (tick1 + 2 + length nameTail + tick2,
                skillReplacement (c :: nameTail))
        else None
    | _ => None
    end
  else None.

(** *** Pass 4: tool names

    For each entry of the table, in its order: the tool name between two word
    boundaries, in front of white space and the word tool, or of white space,
    the word to and white space. *)

Definition CLAUDE_TO_KIRO_TOOLS : list (list ascii * list ascii) :=
  [ (lit "Bash", lit "shell");
    (lit "Write", lit "write");
    (lit "Read", lit "read");
    (lit "Edit", lit "write");
    (lit "Glob", lit "glob");
    (lit "Grep", lit "grep");
    (lit "WebFetch", lit "web_fetch");
    (lit "Task", lit "use_subagent") ].

(** The look-ahead of the tool pattern. *)
Definition toolLookahead (r : list ascii) : bool :=
  match takeWhile isSpace r with
  | [] => false
  | _ :: _ =>
      let r' := dropWhile isSpace r in
      startsWith (lit "tool") r' ||
      match r' with
      | "t" :: "o" :: c :: _ => isSpace c
      | _ => false
      end
  end.

Definition matchTool (claudeTool kiroTool : list ascii) : matcher :=
  fun prev l =>
  if wordBoundary prev (head claudeTool) && startsWith claudeTool l then
    let r := skipn (length claudeTool) l in
    if wordBoundary (last claudeTool) (head r) && toolLookahead r
    then Some (length claudeTool, kiroTool)
    else None
  else None.

Definition rewriteTools (l : list ascii) : list ascii :=
  fold_left (fun acc p => replaceAll (matchTool (fst p) (snd p)) acc)
    CLAUDE_TO_KIRO_TOOLS l.

(** *** Pass 5: agent references

    An at-sign, one of the known agent names, and a word boundary.  The names
    are escaped before they are joined, so each alternative is the literal
    name, and the alternatives are tried in the order of the list. *)

Definition agentReplacement (agentName : list ascii) : list ascii :=
  lit "the " ++ normalizeName agentName ++ lit " agent".

Fixpoint firstPeer (names : list (list ascii)) (r : list ascii)
  : option (list ascii) :=
  match names with
  | [] => None
  | n :: rest =>
      if startsWith n r
         && wordBoundary (last ("@" :: n)) (head (skipn (length n) r))
      then Some n
      else firstPeer rest r
  end.

Definition matchAgentRef (knownAgentNames : list (list ascii)) : matcher :=
  fun _ l =>
  match l with
  | "@" :: r =>
      match firstPeer knownAgentNames r with
      | Some n => Some (1 + length n, agentReplacement n)
      | None => None
      end
  | _ => None
  end.

Definition transformContentForKiro (body : list ascii)
    (knownAgentNames : list (list ascii)) : list ascii :=
  let result1 := replaceAll matchTask body in
  let result2 := replaceAll matchRepoPath (replaceAll matchHomePath result1) in
  let result3 := replaceAll matchSlashRef result2 in
  let result4 := rewriteTools result3 in
  match knownAgentNames with
  | [] => result4
  | _ :: _ => replaceAll (matchAgentRef knownAgentNames) result4
  end.

End Transform.
Import Transform.

(** ** Source and target data *)

Record ClaudeAgent := {
  agent_name : list ascii;
  agent_description : option (list ascii);
  agent_capabilities : option (list (list ascii));
  agent_body : list ascii
}.

Record ClaudeCommand := {
  command_name : list ascii;
  command_description : option (list ascii);
  command_body : list ascii
}.

Record ClaudeSkill := {
  skill_name : list ascii;
  skill_sourceDir : list ascii
}.

(** The fields of a server declaration read by the converter; [mcp_url]
    stands for the network transport of a server without a command. *)
Record ClaudeMcpServer := {
  mcp_command : option (list ascii);
  mcp_args : option (list (list ascii));
  mcp_env : option (gmap (list ascii) (list ascii));
  mcp_url : option (list ascii)
}.

(** [mcpServers] lists the entries of the server object in its own order;
    [hooks] lists the keys of the hooks object; [claudeMd] is the content of
    the root instruction document when it exists and can be read. *)
Record ClaudePlugin := {
  root : list ascii;
  agents : list ClaudeAgent;
  commands : list ClaudeCommand;
  skills : list ClaudeSkill;
  mcpServers : option (list (list ascii * ClaudeMcpServer));
  hooks : option (list (list ascii));
  claudeMd : option (list ascii)
}.

Record KiroAgentConfig := {
  config_name : list ascii;
  config_description : list ascii;
  config_prompt : list ascii;
  config_tools : list (list ascii);
  config_resources : list (list ascii);
  config_includeMcpJson : bool;
  config_welcomeMessage : option (list ascii)
}.

Record KiroAgent := {
  kagent_name : list ascii;
  kagent_config : KiroAgentConfig;
  kagent_promptContent : list ascii
}.

Record KiroSkill := {
  kskill_name : list ascii;
  kskill_content : list ascii
}.

Record KiroSkillDir := {
  kdir_name : list ascii;
  kdir_sourceDir : list ascii
}.

Record KiroSteeringFile := {
  ksteer_name : list ascii;
  ksteer_content : list ascii
}.

Record KiroMcpServer := {
  kmcp_command : list ascii;
  kmcp_args : option (list (list ascii));
  kmcp_env : option (gmap (list ascii) (list ascii))
}.

Record KiroBundle := {
  bundle_agents : list KiroAgent;
  bundle_generatedSkills : list KiroSkill;
  bundle_skillDirs : list KiroSkillDir;
  bundle_steeringFiles : list KiroSteeringFile;
  bundle_mcpServers : gmap (list ascii) KiroMcpServer
}.

(** What the converter and the writer print. *)
Inductive console :=
  | ConsoleWarn (msg : list ascii)
  | ConsoleLog (msg : list ascii).

Definition isWarn (c : console) : bool :=
  match c with ConsoleWarn _ => true | ConsoleLog _ => false end.

(** ** The name registry and the unique-name allocator *)

Module Registry.

(** The template literal [base-index]. *)
Definition suffixed (base : list ascii) (index : nat) : list ascii :=
  base ++ "-" :: lit (pretty index).

(** The [while] loop of [uniqueName]: [Some index] is the index at which
    the loop stops, [None] tells that [fuel] iterations did not suffice. *)
Fixpoint probe (fuel : nat) (base : list ascii) (used : gset (list ascii))
    (index : nat) : option nat :=
  match fuel with
  | O => None
  | S fuel' =>
      if decide (suffixed base index ∈ used)
      then probe fuel' base used (S index)
      else Some index
  end.

(** [uniqueName base used] returns the name and the registry after the
    reservation.  The loop is given one iteration more than the registry
    has names. *)
Definition uniqueName (base : list ascii) (used : gset (list ascii))
  : option (list ascii * gset (list ascii)) :=
  if decide (base ∈ used) then
    match probe (S (size used)) base used 2 with
    | Some index =>
        let name := suffixed base index in
        Some (name, {[ name ]} ∪ used)
    | None => None
    end
  else Some (base, {[ base ]} ∪ used).

End Registry.
Import Registry.

(** ** The converter *)

Module Converter.

Definition KIRO_DESCRIPTION_MAX_LENGTH : nat := 1024.

(** [parts.join(sep)] *)
Fixpoint join (sep : list ascii) (parts : list (list ascii)) : list ascii :=
  match parts with
  | [] => []
  | [x] => x
  | x :: rest => x ++ sep ++ join sep rest
  end.

Definition newline : list ascii := ["010"].

Definition sanitizeDescription (value : list ascii) : list ascii :=
  let maxLength := KIRO_DESCRIPTION_MAX_LENGTH in
  let normalized := trim (replaceRunsGo isSpace " " false value) in
  if (length normalized <=? maxLength)%nat then normalized
  else
    let ellipsis := lit "..." in
    trimEnd (firstn (Nat.max 0 (maxLength - length ellipsis)) normalized)
      ++ ellipsis.

(** The capability list put in front of a prompt body. *)
Definition capabilityPrefix (caps : list (list ascii)) : list ascii :=
  lit "## Capabilities" ++ newline
    ++ join newline (map (fun c => lit "- " ++ c) caps)
    ++ newline ++ newline.

Definition agentPlaceholder (name : list ascii) : list ascii :=
  lit "Instructions converted from the " ++ name ++ lit " agent.".

Definition convertAgentToKiroAgent (agent : ClaudeAgent)
    (knownAgentNames : list (list ascii)) : KiroAgent :=
  let name := normalizeName (agent_name agent) in
  let description :=
    sanitizeDescription
      (match agent_description agent with
       | Some d => d
       | None => lit "Use this agent for " ++ agent_name agent ++ lit " tasks"
       end) in
  let config :=
    {| config_name := name;
       config_description := description;
       config_prompt := lit "file://./prompts/" ++ name ++ lit ".md";
       config_tools := [lit "*"];
       config_resources :=
         [lit "file://.kiro/steering/**/*.md";
          lit "skill://.kiro/skills/**/SKILL.md"];
       config_includeMcpJson := true;
       config_welcomeMessage :=
         Some (lit "Switching to the " ++ name ++ lit " agent. "
                 ++ description) |} in
  let body := transformContentForKiro (trim (agent_body agent))
                knownAgentNames in
  let body :=
    match agent_capabilities agent with
    | Some ((_ :: _) as caps) => trim (capabilityPrefix caps ++ body)
    | _ => body
    end in
  let body :=
    if (length body =? 0)%nat then agentPlaceholder (agent_name agent)
    else body in
  {| kagent_name := name; kagent_config := config;
     kagent_promptContent := body |}.

(** Computations that allocate names: the registry is threaded through, and
    [None] tells that a probing loop ran out of iterations. *)
Definition Alloc (A : Type) : Type :=
  gset (list ascii) -> option (A * gset (list ascii)).

Definition ret {A} (a : A) : Alloc A := fun used => Some (a, used).

Definition bind {A B} (m : Alloc A) (k : A -> Alloc B) : Alloc B :=
  fun used =>
    match m used with
    | Some (a, used') => k a used'
    | None => None
    end.

Fixpoint mapAlloc {A B} (f : A -> Alloc B) (l : list A) : Alloc (list B) :=
  match l with
  | [] => ret []
  | x :: rest =>
      bind (f x) (fun y => bind (mapAlloc f rest) (fun ys => ret (y :: ys)))
  end.

Section WithFrontmatter.

(** [formatFrontmatter] of the frontmatter utilities, applied to the name,
    the description and the body of a generated skill. *)
Variable formatFrontmatter :
  list ascii -> list ascii -> list ascii -> list ascii.

Definition convertCommandToSkill (command : ClaudeCommand)
    (knownAgentNames : list (list ascii)) : Alloc KiroSkill :=
  let rawName := normalizeName (command_name command) in
  bind (uniqueName rawName) (fun name =>
  let description :=
    sanitizeDescription
      (match command_description command with
       | Some d => d
       | None => lit "Converted from Claude command " ++ command_name command
       end) in
  let body := transformContentForKiro (trim (command_body command))
                knownAgentNames in
  let body :=
    if (length body =? 0)%nat
    then lit "Instructions converted from the " ++ command_name command
           ++ lit " command."
    else body in
  ret {| kskill_name := name;
         kskill_content := formatFrontmatter name description body |}).

Definition mcpWarning (name : list ascii) : console :=
  ConsoleWarn
    (lit "Warning: MCP server " ++ dquote :: name ++ dquote ::
     lit " has no command (HTTP/SSE transport). Kiro only supports stdio. Skipping.").

Definition mcpLog (name command : list ascii)
    (args : option (list (list ascii))) : console :=
  ConsoleLog
    (lit "MCP server " ++ dquote :: name ++ dquote ::
     lit " will execute: " ++ command ++
     match args with
     | Some a => lit " " ++ join (lit " ") a
     | None => []
     end).

(** The entry built for a server whose command is [command]. *)
Definition mcpEntry (command : list ascii) (server : ClaudeMcpServer)
  : KiroMcpServer :=
  {| kmcp_command := command;
     kmcp_args :=
       match mcp_args server with
       | Some ((_ :: _) as a) => Some a
       | _ => None
       end;
     kmcp_env :=
       match mcp_env server with
       | Some e => if (0 <? size e)%nat then Some e else None
       | None => None
       end |}.

(** The loop over the entries of the server object; [result] and [out] are
    the object built and the lines printed so far. *)
Fixpoint mcpLoop (entries : list (list ascii * ClaudeMcpServer))
    (result : gmap (list ascii) KiroMcpServer) (out : list console)
  : gmap (list ascii) KiroMcpServer * list console :=
  match entries with
  | [] => (result, out)
  | (name, server) :: rest =>
      match mcp_command server with
      | None | Some [] => mcpLoop rest result (out ++ [mcpWarning name])
      | Some ((_ :: _) as command) =>
          mcpLoop rest (<[ name := mcpEntry command server ]> result)
            (out ++ [mcpLog name command (mcp_args server)])
      end
  end.

Definition convertMcpServers
    (servers : option (list (list ascii * ClaudeMcpServer)))
  : gmap (list ascii) KiroMcpServer * list console :=
  match servers with
  | None | Some [] => (∅, [])
  | Some entries => mcpLoop entries ∅ []
  end.

Definition buildSteeringFiles (plugin : ClaudePlugin)
    (knownAgentNames : list (list ascii)) : list KiroSteeringFile :=
  match claudeMd plugin with
  | None => []
  | Some content =>
      if (length content =? 0)%nat || (length (trim content) =? 0)%nat
      then []
      else [ {| ksteer_name := lit "compound-engineering";
                ksteer_content :=
                  transformContentForKiro content knownAgentNames |} ]
  end.

Definition hooksWarning : console :=
  ConsoleWarn
    (lit "Warning: Kiro CLI hooks use a different format (preToolUse/postToolUse inside agent configs). Hooks were skipped during conversion.").

(** The registry after the pass-through skills are reserved. *)
Definition reserveSkillNames (skillDirs : list KiroSkillDir)
  : gset (list ascii) :=
  fold_left (fun used skill => {[ normalizeName (kdir_name skill) ]} ∪ used)
    skillDirs ∅.

(** The converter returns the bundle and the lines it printed. *)
Definition convertClaudeToKiro (plugin : ClaudePlugin)
  : option (KiroBundle * list console) :=
  let skillDirs :=
    map (fun skill => {| kdir_name := skill_name skill;
                         kdir_sourceDir := skill_sourceDir skill |})
      (skills plugin) in
  let usedSkillNames := reserveSkillNames skillDirs in
  let agentNames := map (fun a => normalizeName (agent_name a))
                      (agents plugin) in
  let agents := map (fun agent => convertAgentToKiroAgent agent agentNames)
                  (agents plugin) in
  match mapAlloc (fun command => convertCommandToSkill command agentNames)
          (commands plugin) usedSkillNames with
  | None => None
  | Some (generatedSkills, _) =>
      let (mcpServers, out) := convertMcpServers (mcpServers plugin) in
      let steeringFiles := buildSteeringFiles plugin agentNames in
      let out :=
        match hooks plugin with
        | Some (_ :: _) => out ++ [hooksWarning]
        | _ => out
        end in
      Some ({| bundle_agents := agents;
               bundle_generatedSkills := generatedSkills;
               bundle_skillDirs := skillDirs;
               bundle_steeringFiles := steeringFiles;
               bundle_mcpServers := mcpServers |}, out)
  end.

End WithFrontmatter.

End Converter.
Import Converter.

(** ** The bundle writer *)

Module Writer.

(** JSON values, as written by [writeJson] and returned by [readJson]. *)
Inductive json :=
  | JNull
  | JBool (b : bool)
  | JNum (z : Z)
  | JStr (s : list ascii)
  | JArr (l : list json)
  | JObj (m : gmap (list ascii) json).

(** A path is the list of its segments; [path.join(dir, x)] appends [x]. *)
Definition path : Type := list (list ascii).

(** The calls to the file utilities and to the console, in the order in
    which the writer makes them. *)
Inductive fsEvent :=
  | EnsureDir (dir : path)
  | WriteJson (file : path) (value : json)
  | WriteText (file : path) (content : list ascii)
  | CopyDir (sourceDir : list ascii) (destDir : path)
  | BackupFile (file : path)
  | Console (line : console).

(** The state of the settings file when the writer reaches it. *)
Inductive existingFile :=
  | NoFile
  | Unparseable
  | Parsed (value : json).

Inductive outcome (A : Type) :=
  | Done (a : A)
  | Raised (msg : list ascii).
Arguments Done {A} a.
Arguments Raised {A} msg.

(** A write: the events performed, and how it ended.  The events performed
    before a [throw] stay. *)
Definition Write (A : Type) : Type := list fsEvent * outcome A.

Definition wret {A} (a : A) : Write A := ([], Done a).
Definition throw {A} (msg : list ascii) : Write A := ([], Raised msg).
Definition emit (e : fsEvent) : Write unit := ([e], Done tt).

Definition wbind {A B} (m : Write A) (k : A -> Write B) : Write B :=
  match m with
  | (t, Done a) => let (t', r) := k a in (t ++ t', r)
  | (t, Raised msg) => (t, Raised msg)
  end.

Notation "m ;;; k" := (wbind m (fun _ => k))
  (at level 100, right associativity).

Fixpoint forEach {A} (f : A -> Write unit) (l : list A) : Write unit :=
  match l with
  | [] => wret tt
  | x :: rest => f x ;;; forEach f rest
  end.

(** [if (l.length > 0) { ... }] *)
Definition whenNonEmpty {A} (l : list A) (w : Write unit) : Write unit :=
  match l with
  | [] => wret tt
  | _ :: _ => w
  end.

Record KiroPaths := {
  kiroDir : path;
  agentsDir : path;
  skillsDir : path;
  steeringDir : path;
  settingsDir : path
}.

Definition pathsUnder (kiro : path) : KiroPaths :=
  {| kiroDir := kiro;
     agentsDir := kiro ++ [lit "agents"];
     skillsDir := kiro ++ [lit "skills"];
     steeringDir := kiro ++ [lit "steering"];
     settingsDir := kiro ++ [lit "settings"] |}.

(** [path.basename(outputRoot)] is the last segment. *)
Definition resolveKiroPaths (outputRoot : path) : KiroPaths :=
  match last outputRoot with
  | Some base =>
      if decide (base = lit ".kiro") then pathsUnder outputRoot
      else pathsUnder (outputRoot ++ [lit ".kiro"])
  | None => pathsUnder (outputRoot ++ [lit ".kiro"])
  end.

Definition unsafeName (name : list ascii) : bool :=
  includes (lit "..") name || includes (lit "/") name
  || includes (lit "\") name.

Definition unsafeMessage (name label : list ascii) : list ascii :=
  label ++ lit " name contains unsafe path characters: " ++ name.

Definition validatePathSafe (name label : list ascii) : Write unit :=
  if unsafeName name then throw (unsafeMessage name label) else wret tt.

Definition configToJson (c : KiroAgentConfig) : json :=
  JObj (list_to_map
    ([ (lit "name", JStr (config_name c));
       (lit "description", JStr (config_description c));
       (lit "prompt", JStr (config_prompt c));
       (lit "tools", JArr (map JStr (config_tools c)));
       (lit "resources", JArr (map JStr (config_resources c)));
       (lit "includeMcpJson", JBool (config_includeMcpJson c)) ]
     ++ match config_welcomeMessage c with
        | Some m => [ (lit "welcomeMessage", JStr m) ]
        | None => []
        end)).

Definition serverToJson (srv : KiroMcpServer) : json :=
  JObj (list_to_map
    ([ (lit "command", JStr (kmcp_command srv)) ]
     ++ match kmcp_args srv with
        | Some a => [ (lit "args", JArr (map JStr a)) ]
        | None => []
        end
     ++ match kmcp_env srv with
        | Some e => [ (lit "env", JObj (JStr <$> e)) ]
        | None => []
        end)).

(** The keys under which a spread copies the elements of an array. *)
Definition indexed (l : list json) : gmap (list ascii) json :=
  list_to_map (imap (fun i x => (lit (pretty i), x)) l).

(** The own enumerable properties that an object spread copies. *)
Definition spread (v : json) : gmap (list ascii) json :=
  match v with
  | JObj m => m
  | JArr l => indexed l
  | JStr s => indexed (map (fun c => JStr [c]) s)
  | JNull | JBool _ | JNum _ => ∅
  end.

(** [v && typeof v === "object"] on a JSON value. *)
Definition truthyObject (v : json) : bool :=
  match v with
  | JObj _ | JArr _ => true
  | _ => false
  end.

(** [existingConfig.mcpServers]: a property read, which throws on [null]. *)
Definition getMcpServers (existingConfig : json) : Write (option json) :=
  match existingConfig with
  | JNull =>
      throw (lit "TypeError: Cannot read properties of null (reading 'mcpServers')")
  | JObj m => wret (m !! lit "mcpServers")
  | _ => wret None
  end.

Definition mergeConfig (existingConfig : json)
    (existingServers : gmap (list ascii) json)
    (servers : gmap (list ascii) KiroMcpServer) : json :=
  JObj (<[ lit "mcpServers" :=
             JObj ((serverToJson <$> servers) ∪ existingServers) ]>
          (spread existingConfig)).

Section WithFileSystem.

(** [resolvesInside destDir skillsDir]: whether the resolved form of
    [destDir] starts with the resolved form of [skillsDir]. *)
Variable resolvesInside : path -> path -> bool.

(** Modelled from the spec: the backup helper of the file utilities takes a
    timestamped backup of any pre-existing file; [backupPathOf] is the path
    it returns for the file it has copied. *)
Variable backupPathOf : path -> list ascii.

Definition writeAgent (paths : KiroPaths) (agent : KiroAgent) : Write unit :=
  validatePathSafe (kagent_name agent) (lit "agent") ;;;
  emit (WriteJson (agentsDir paths ++ [kagent_name agent ++ lit ".json"])
          (configToJson (kagent_config agent))) ;;;
  emit (WriteText
          (agentsDir paths ++ [lit "prompts"; kagent_name agent ++ lit ".md"])
          (kagent_promptContent agent ++ newline)).

Definition writeSkill (paths : KiroPaths) (skill : KiroSkill) : Write unit :=
  validatePathSafe (kskill_name skill) (lit "skill") ;;;
  emit (WriteText (skillsDir paths ++ [kskill_name skill; lit "SKILL.md"])
          (kskill_content skill ++ newline)).

Definition escapeWarning (name : list ascii) : console :=
  ConsoleWarn (lit "Warning: Skill name " ++ dquote :: name ++ dquote ::
               lit " escapes .kiro/skills/. Skipping.").

Definition copySkillDir (paths : KiroPaths) (skill : KiroSkillDir)
  : Write unit :=
  validatePathSafe (kdir_name skill) (lit "skill directory") ;;;
  let destDir := skillsDir paths ++ [kdir_name skill] in
  if negb (resolvesInside destDir (skillsDir paths))
  then emit (Console (escapeWarning (kdir_name skill)))
  else emit (CopyDir (kdir_sourceDir skill) destDir).

Definition writeSteering (paths : KiroPaths) (file : KiroSteeringFile)
  : Write unit :=
  validatePathSafe (ksteer_name file) (lit "steering file") ;;;
  emit (WriteText (steeringDir paths ++ [ksteer_name file ++ lit ".md"])
          (ksteer_content file ++ newline)).

(** The backup helper: nothing to do when the file is absent. *)
Definition backupFile (mcpPath : path) (existing : existingFile)
  : Write unit :=
  match existing with
  | NoFile => wret tt
  | _ =>
      emit (BackupFile mcpPath) ;;;
      emit (Console (ConsoleLog (lit "Backed up existing mcp.json to "
                                   ++ backupPathOf mcpPath)))
  end.

(** The existing configuration: the empty object unless the file exists and
    can be parsed. *)
Definition readExisting (existing : existingFile) : Write json :=
  match existing with
  | NoFile => wret (JObj ∅)
  | Unparseable =>
      wbind
        (emit (Console (ConsoleWarn
           (lit "Warning: existing mcp.json could not be parsed and will be replaced."))))
        (fun _ => wret (JObj ∅))
  | Parsed v => wret v
  end.

Definition writeMcp (paths : KiroPaths) (existing : existingFile)
    (servers : gmap (list ascii) KiroMcpServer) : Write unit :=
  if (0 <? size servers)%nat then
    let mcpPath := settingsDir paths ++ [lit "mcp.json"] in
    backupFile mcpPath existing ;;;
    wbind (readExisting existing) (fun existingConfig =>
    wbind (getMcpServers existingConfig) (fun prop =>
    let existingServers :=
      match prop with
      | Some v => if truthyObject v then spread v else ∅
      | None => ∅
      end in
    emit (WriteJson mcpPath
            (mergeConfig existingConfig existingServers servers))))
  else wret tt.

(** [existing] is the settings file as the writer finds it. *)
Definition writeKiroBundle (outputRoot : path) (existing : existingFile)
    (bundle : KiroBundle) : Write unit :=
  let paths := resolveKiroPaths outputRoot in
  emit (EnsureDir (kiroDir paths)) ;;;
  whenNonEmpty (bundle_agents bundle)
    (forEach (writeAgent paths) (bundle_agents bundle)) ;;;
  whenNonEmpty (bundle_generatedSkills bundle)
    (forEach (writeSkill paths) (bundle_generatedSkills bundle)) ;;;
  whenNonEmpty (bundle_skillDirs bundle)
    (forEach (copySkillDir paths) (bundle_skillDirs bundle)) ;;;
  whenNonEmpty (bundle_steeringFiles bundle)
    (forEach (writeSteering paths) (bundle_steeringFiles bundle)) ;;;
  writeMcp paths existing (bundle_mcpServers bundle).

End WithFileSystem.

End Writer.
Import Writer.

(** ** Notions used in the statements *)

Module Notions.

(** No two hyphens in a row; [prevH] tells that a hyphen comes just before. *)
Fixpoint collapsed (prevH : bool) (l : list ascii) : bool :=
  match l with
  | [] => true
  | c :: t =>
      if isHyphen c then negb prevH && collapsed true t
      else collapsed false t
  end.

(** A cut at a hyphen boundary at or before the limit: the result is the
    text in front of one of its hyphens, which stands at an index of at most
    64. *)
Definition cutAtHyphen (n r : list ascii) : Prop :=
  exists k, k <= 64 /\ n !! k = Some "-" /\ r = take k n.

(** The name a command gets: its normalized name, or that name with a
    numeric suffix. *)
Definition allocatedFor (command : ClaudeCommand) (skill : KiroSkill) : Prop :=
  kskill_name skill = normalizeName (command_name command) \/
  exists index,
    kskill_name skill = suffixed (normalizeName (command_name command)) index.

(** The agent part of the uniqueness invariant: agents with different source
    names get different identifiers. *)
Definition agentIdentifiersDistinct (plugin : ClaudePlugin)
    (bundle : KiroBundle) : Prop :=
  forall i j a1 a2 k1 k2,
    agents plugin !! i = Some a1 -> agents plugin !! j = Some a2 ->
    agent_name a1 <> agent_name a2 ->
    bundle_agents bundle !! i = Some k1 ->
    bundle_agents bundle !! j = Some k2 ->
    kagent_name k1 <> kagent_name k2.

(** A frontmatter formatter for the worked examples: the name, a colon and
    the body. *)
Definition plainFrontmatter (name description body : list ascii)
  : list ascii :=
  name ++ ":" :: body.

Definition agentNamed (name : string) : ClaudeAgent :=
  {| agent_name := lit name; agent_description := None;
     agent_capabilities := None; agent_body := [] |}.

Definition commandNamed (name : list ascii) : ClaudeCommand :=
  {| command_name := name; command_description := None;
     command_body := [] |}.

Definition skillNamed (name : list ascii) : ClaudeSkill :=
  {| skill_name := name; skill_sourceDir := lit "src" |}.

Definition emptyPlugin : ClaudePlugin :=
  {| root := lit "."; agents := []; commands := []; skills := [];
     mcpServers := None; hooks := None; claudeMd := None |}.

(** Two agents whose names differ and normalize alike. *)
Definition twoReviewers : ClaudePlugin :=
  {| root := lit "."; agents := [agentNamed "Code Reviewer";
                                 agentNamed "code-reviewer"];
     commands := []; skills := [];
     mcpServers := None; hooks := None; claudeMd := None |}.

(** A pass-through skill whose raw name is longer than the limit, and a
    command whose name is the normalized form of that name. *)
Definition longSkill : ClaudePlugin :=
  {| root := lit "."; agents := [];
     commands := [commandNamed (repeat "a" 64)];
     skills := [skillNamed (repeat "a" 64 ++ lit "-2")];
     mcpServers := None; hooks := None; claudeMd := None |}.

(** A pass-through skill whose name needs normalization, and a command with
    the normalized name. *)
Definition mySkill : ClaudePlugin :=
  {| root := lit "."; agents := [];
     commands := [commandNamed (lit "my-skill")];
     skills := [skillNamed (lit "My Skill")];
     mcpServers := None; hooks := None; claudeMd := None |}.

(** The records of a bundle, in the order in which the writer visits them. *)
Inductive bundleRecord :=
  | RAgent (agent : KiroAgent)
  | RSkill (skill : KiroSkill)
  | RSkillDir (dir : KiroSkillDir)
  | RSteering (file : KiroSteeringFile).

Definition recordName (r : bundleRecord) : list ascii :=
  match r with
  | RAgent agent => kagent_name agent
  | RSkill skill => kskill_name skill
  | RSkillDir dir => kdir_name dir
  | RSteering file => ksteer_name file
  end.

Definition recordLabel (r : bundleRecord) : list ascii :=
  match r with
  | RAgent _ => lit "agent"
  | RSkill _ => lit "skill"
  | RSkillDir _ => lit "skill directory"
  | RSteering _ => lit "steering file"
  end.

Definition bundleRecords (bundle : KiroBundle) : list bundleRecord :=
  map RAgent (bundle_agents bundle)
  ++ map RSkill (bundle_generatedSkills bundle)
  ++ map RSkillDir (bundle_skillDirs bundle)
  ++ map RSteering (bundle_steeringFiles bundle).

(** What the writer does for one record. *)
Definition writeRecord (resolvesInside : path -> path -> bool)
    (paths : KiroPaths) (r : bundleRecord) : Write unit :=
  match r with
  | RAgent agent => writeAgent paths agent
  | RSkill skill => writeSkill paths skill
  | RSkillDir dir => copySkillDir resolvesInside paths dir
  | RSteering file => writeSteering paths file
  end.

(** The events of one record. *)
Definition recordEvents (resolvesInside : path -> path -> bool)
    (paths : KiroPaths) (r : bundleRecord) : list fsEvent :=
  fst (writeRecord resolvesInside paths r).

(** Sample data for the writer. *)
Definition sampleConfig (name : list ascii) : KiroAgentConfig :=
  {| config_name := name; config_description := lit "d";
     config_prompt := lit "file://./prompts/" ++ name ++ lit ".md";
     config_tools := [lit "*"]; config_resources := [];
     config_includeMcpJson := true; config_welcomeMessage := None |}.

Definition sampleAgent (name : string) : KiroAgent :=
  {| kagent_name := lit name; kagent_config := sampleConfig (lit name);
     kagent_promptContent := lit "p" |}.

Definition sampleServer (command : string) : KiroMcpServer :=
  {| kmcp_command := lit command; kmcp_args := None; kmcp_env := None |}.

(** A safe agent in front of an agent whose identifier leaves the agents
    directory. *)
Definition evilBundle : KiroBundle :=
  {| bundle_agents := [sampleAgent "ok"; sampleAgent "../evil"];
     bundle_generatedSkills := []; bundle_skillDirs := [];
     bundle_steeringFiles := [];
     bundle_mcpServers := {[ lit "new" := sampleServer "run" ]} |}.

(** One agent and one server. *)
Definition serverBundle : KiroBundle :=
  {| bundle_agents := [sampleAgent "ok"];
     bundle_generatedSkills := []; bundle_skillDirs := [];
     bundle_steeringFiles := [];
     bundle_mcpServers := {[ lit "new" := sampleServer "run" ]} |}.

(** An existing settings object with two other keys and one server. *)
Definition sampleSettings : gmap (list ascii) json :=
  {[ lit "theme" := JStr (lit "dark");
     lit "version" := JNum 2;
     lit "mcpServers" :=
       JObj {[ lit "old" := serverToJson (sampleServer "legacy") ]} ]}.

Definition alwaysInside (dest dir : path) : bool := true.
Definition sampleBackupPath (file : path) : list ascii :=
  lit "mcp.json.bak".





(** A server with a command and an empty argument list, and a server with a
    network transport only. *)
Definition sampleServers : list (list ascii * ClaudeMcpServer) :=
  [ (lit "local",
     {| mcp_command := Some (lit "run"); mcp_args := Some [];
        mcp_env := None; mcp_url := None |});
    (lit "remote",
     {| mcp_command := None; mcp_args := None; mcp_env := None;
        mcp_url := Some (lit "https://example.com/mcp") |}) ].

(** Whether a matcher matches at some position of a text; [prev] is the
    code unit in front of the text. *)
Fixpoint matchesAnywhere (m : matcher) (prev : option ascii)
    (l : list ascii) : bool :=
  match l with
  | [] => false
  | c :: t =>
      match m prev l with
      | Some _ => true
      | None => matchesAnywhere m (Some c) t
      end
  end.

Definition noTrigger (m : matcher) (text : list ascii) : bool :=
  negb (matchesAnywhere m None text).


(** The characters one of which every trigger pattern needs: the capitals
    that start the word Task and the tool names, and the tilde, the dot, the
    slash and the at-sign. *)
Definition triggerChar (c : ascii) : bool :=
  existsb (Ascii.eqb c) (lit "TBWREG~./@").

(** A text without any of these characters. *)
Definition inert (text : list ascii) : bool :=
  forallb (fun c => negb (triggerChar c)) text.


(** The prompt body as C3 words it: the capability list is put in front of
    the source body first, and the whole is transformed. *)
Definition promptBodyAsClaimed (agent : ClaudeAgent)
    (knownAgentNames : list (list ascii)) : list ascii :=
  match agent_capabilities agent with
  | Some ((_ :: _) as caps) =>
      transformContentForKiro
        (trim (capabilityPrefix caps ++ trim (agent_body agent)))
        knownAgentNames
  | _ => transformContentForKiro (trim (agent_body agent)) knownAgentNames
  end.

(** An agent with one capability that reads as a slash command. *)
Definition plannerAgent : ClaudeAgent :=
  {| agent_name := lit "Planner"; agent_description := None;
     agent_capabilities := Some [lit "/plan"];
     agent_body := lit "Make a plan." |}.

(** A delegate call whose arguments run over a line break, and swallow the
    head of a second call. *)
Definition nestedTask : list ascii :=
  lit "Task foo(a" ++ newline ++ lit "Task bar(x)y)".

(** A body on which every pass has work to do. *)
Definition busyBody : list ascii :=
  lit "- Task code-reviewer(check this) with ~/.claude/x and .claude/y, then /workflows:plan; use the Bash tool and ask @reviewer".

End Notions.
Import Notions.

(** * Properties *)

(** ** Worked examples *)

Example normalize_code_reviewer :
  normalizeName (lit "Code Reviewer") = lit "code-reviewer".
Proof. reflexivity. Qed.

Example normalize_fallbacks :
  normalizeName (lit "") = lit "item" /\
  normalizeName (lit "---") = lit "item" /\
  normalizeName (lit "123abc") = lit "item".
Proof. repeat split; reflexivity. Qed.

Example normalize_workflows_plan :
  normalizeName (lit "/workflows:plan") = lit "workflows-plan".
Proof. reflexivity. Qed.

Example uniqueName_plan :
  fst <$> uniqueName (lit "plan") {[ lit "plan" ]} = Some (lit "plan-2") /\
  fst <$> uniqueName (lit "plan") {[ lit "plan"; lit "plan-2" ]}
    = Some (lit "plan-3").
Proof. split; vm_compute; reflexivity. Qed.

(** ** Tactics *)

(** Case analysis on the eight bits of a code unit, for facts about
    character classes that hold by computation. *)
Ltac ascii_cases c := destruct c as [[] [] [] [] [] [] [] []].

(** ** Lists of code units *)

Section ListFacts.

Variable p : ascii -> bool.

Lemma take_drop_while (l : list ascii) :
  takeWhile p l ++ dropWhile p l = l.
Proof.
  induction l as [|c t IH]; simpl; [done|].
  destruct (p c); simpl; [by rewrite IH | done].
Qed.

Lemma dropWhile_suffix (l : list ascii) : dropWhile p l `suffix_of` l.
Proof. exists (takeWhile p l). by rewrite take_drop_while. Qed.

Lemma dropWhile_length (l : list ascii) : length (dropWhile p l) <= length l.
Proof.
  induction l as [|c t IH]; simpl; [lia|]. destruct (p c); simpl; lia.
Qed.

Lemma dropWhile_head (l : list ascii) c t :
  dropWhile p l = c :: t -> p c = false.
Proof.
  induction l as [|x r IH]; simpl; [done|].
  destruct (p x) eqn:E; [done|]. by intros [= -> _].
Qed.

Lemma dropWhile_id (l : list ascii) :
  match l with c :: _ => p c = false | [] => True end -> dropWhile p l = l.
Proof. destruct l as [|c t]; simpl; [done|]. by intros ->. Qed.

Lemma takeWhile_Forall (l : list ascii) :
  Forall (fun c => p c = true) (takeWhile p l).
Proof.
  induction l as [|c t IH]; simpl; [constructor|].
  destruct (p c) eqn:E; by constructor.
Qed.

Lemma Forall_dropWhile (Q : ascii -> Prop) (l : list ascii) :
  Forall Q l -> Forall Q (dropWhile p l).
Proof.
  intros H. destruct (dropWhile_suffix l) as [k Hk].
  rewrite Hk in H. by apply Forall_app in H as [_ H].
Qed.

(** Dropping from the end: the last character left is outside the class. *)
Lemma dropEnd_last (l : list ascii) c :
  last (rev (dropWhile p (rev l))) = Some c -> p c = false.
Proof.
  destruct (dropWhile p (rev l)) as [|x t] eqn:E; simpl; [done|].
  rewrite last_snoc. intros [= <-]. by eapply dropWhile_head.
Qed.

Lemma dropEnd_length (l : list ascii) :
  length (rev (dropWhile p (rev l))) <= length l.
Proof.
  rewrite length_rev. etrans; [apply dropWhile_length|]. by rewrite length_rev.
Qed.

Lemma dropEnd_id (l : list ascii) :
  match last l with Some c => p c = false | None => True end ->
  rev (dropWhile p (rev l)) = l.
Proof.
  destruct l as [|c t] using rev_ind; [done|].
  rewrite last_snoc, rev_app_distr. simpl. intros ->. simpl.
  by rewrite rev_involutive.
Qed.

Lemma dropEnd_prefix (l : list ascii) :
  rev (dropWhile p (rev l)) `prefix_of` l.
Proof.
  destruct (dropWhile_suffix (rev l)) as [k Hk].
  exists (rev k). rewrite <- rev_app_distr, <- Hk. by rewrite rev_involutive.
Qed.

End ListFacts.

(** ** The name normalizer *)

Section NormalizerFacts.

Lemma replaceRunsGo_keeps (Q : ascii -> Prop) p r b l :
  Q r -> Forall Q l -> Forall Q (replaceRunsGo p r b l).
Proof.
  intros Hr H. revert b.
  induction H as [|c t Hc Ht IH]; intros b; simpl; [constructor|].
  destruct (p c), b; auto.
Qed.

Lemma replaceRunsGo_class (Q : ascii -> Prop) p r b l :
  Q r -> (forall c, p c = false -> Q c) -> Forall Q (replaceRunsGo p r b l).
Proof.
  intros Hr Hq. revert b.
  induction l as [|c t IH]; intros b; simpl; [constructor|].
  destruct (p c) eqn:E, b; auto.
Qed.

Lemma Forall_prefix_of (Q : ascii -> Prop) (l1 l2 : list ascii) :
  l1 `prefix_of` l2 -> Forall Q l2 -> Forall Q l1.
Proof. intros [k ->] H. by apply Forall_app in H as [H _]. Qed.

Lemma stripHyphens_infix l :
  exists a b, dropWhile isHyphen l = stripHyphens l ++ b /\
              l = a ++ dropWhile isHyphen l.
Proof.
  destruct (dropEnd_prefix isHyphen (dropWhile isHyphen l)) as [b Hb].
  destruct (dropWhile_suffix isHyphen l) as [a Ha].
  exists a, b. split; [exact Hb | exact Ha].
Qed.

Lemma preTruncation_chars t :
  Forall (fun c => isNameChar c = true) (preTruncation t).
Proof.
  unfold preTruncation.
  destruct (stripHyphens_infix
    (replaceRuns isHyphen (replaceRuns notNameChar
       (replaceRuns isColonSpace (replaceRuns isSlash (toLowerCase t))))))
    as (a & b & H1 & H2).
  set (m := replaceRuns isHyphen _) in *.
  assert (Hm : Forall (fun c => isNameChar c = true) m).
  { apply replaceRunsGo_keeps; [done|].
    apply replaceRunsGo_class; [done|].
    intros c Hc. unfold notNameChar in Hc. by destruct (isNameChar c). }
  rewrite H2, H1 in Hm. apply Forall_app in Hm as [_ Hm].
  by apply Forall_app in Hm as [Hm _].
Qed.

Lemma enforceMaxLength_prefix n : enforceMaxLength n `prefix_of` n.
Proof.
  unfold enforceMaxLength, slice0, stripTrailingHyphens.
  destruct (_ <? _)%Z; [|done].
  etrans; [apply dropEnd_prefix|].
  destruct (0 <? _)%Z.
  - etrans; apply prefix_take.
  - apply prefix_take.
Qed.

Lemma enforceMaxLength_length n : length (enforceMaxLength n) <= 64.
Proof.
  unfold enforceMaxLength, slice0, stripTrailingHyphens,
    KIRO_SKILL_NAME_MAX_LENGTH.
  destruct (64 <? _)%Z eqn:E; [|apply Z.ltb_ge in E; lia].
  etrans; [apply dropEnd_length|].
  destruct (0 <? _)%Z; rewrite ?length_take; lia.
Qed.

Lemma preTruncation_last t c :
  last (preTruncation t) = Some c -> c <> "-".
Proof.
  unfold preTruncation, stripHyphens. intros H%dropEnd_last ->. done.
Qed.

Lemma enforceMaxLength_last n c :
  (forall c, last n = Some c -> c <> "-") ->
  last (enforceMaxLength n) = Some c -> c <> "-".
Proof.
  intros Hn. unfold enforceMaxLength, stripTrailingHyphens.
  destruct (_ <? _)%Z; [|apply Hn].
  intros H%dropEnd_last ->. done.
Qed.

(** The identifier is made of lower-case letters, digits, underscores and
    hyphens only. *)
Lemma normalizeName_chars value :
  Forall (fun c => isNameChar c = true) (normalizeName value).
Proof.
  assert (Hitem : Forall (fun c => isNameChar c = true) (lit "item")).
  { by repeat constructor. }
  unfold normalizeName. destruct (trim value) as [|c t]; [done|].
  destruct (_ || _); [done|].
  eapply Forall_prefix_of; [apply enforceMaxLength_prefix|].
  apply preTruncation_chars.
Qed.

Lemma normalizeName_length value : length (normalizeName value) <= 64.
Proof.
  unfold normalizeName. destruct (trim value) as [|c t]; [simpl; lia|].
  destruct (_ || _); [simpl; lia|]. apply enforceMaxLength_length.
Qed.

Lemma normalizeName_last value : last (normalizeName value) <> Some "-".
Proof.
  unfold normalizeName. destruct (trim value) as [|c t]; [done|].
  destruct (_ || _); [done|].
  intros H. eapply enforceMaxLength_last; [|exact H|done].
  apply preTruncation_last.
Qed.

Lemma normalizeName_nonempty value : normalizeName value <> [].
Proof.
  unfold normalizeName. destruct (trim value) as [|c t]; [done|].
  destruct (length _ =? 0)%nat eqn:E; simpl; [done|].
  destruct (negb _); [done|].
  apply Nat.eqb_neq in E. by destruct (enforceMaxLength _).
Qed.

End NormalizerFacts.

(** ** Where the normalizer cuts a long name *)

Section Truncation.

Lemma collapsed_weaken b l : collapsed b l = true -> collapsed false l = true.
Proof.
  destruct l as [|c t]; simpl; [done|].
  destruct (isHyphen c); [|done]. by intros [_ ->]%andb_prop.
Qed.

Lemma collapsed_replaceRuns b l :
  collapsed b (replaceRunsGo isHyphen "-" b l) = true.
Proof.
  revert b. induction l as [|c t IH]; intros b; simpl; [done|].
  destruct (isHyphen c) eqn:E.
  - destruct b; [apply IH|]. simpl. apply IH.
  - simpl. rewrite E. apply IH.
Qed.

Lemma collapsed_app_r b l1 l2 :
  collapsed b (l1 ++ l2) = true -> collapsed false l2 = true.
Proof.
  revert b. induction l1 as [|c t IH]; intros b; simpl.
  - apply collapsed_weaken.
  - destruct (isHyphen c); [intros [_ H]%andb_prop|intros H]; eauto.
Qed.

Lemma collapsed_app_l b l1 l2 :
  collapsed b (l1 ++ l2) = true -> collapsed b l1 = true.
Proof.
  revert b. induction l1 as [|c t IH]; intros b; simpl; [done|].
  destruct (isHyphen c); [|by eauto].
  intros [-> H]%andb_prop. simpl. eauto.
Qed.

(** In a collapsed text the character before a hyphen is no hyphen. *)
Lemma collapsed_before b (l : list ascii) k :
  collapsed b l = true -> l !! S k = Some "-" -> l !! k <> Some "-".
Proof.
  revert b k. induction l as [|c t IH]; intros b k; simpl; [done|].
  destruct k as [|k].
  - destruct t as [|d t']; [done|]. simpl. intros H [= ->] [= ->].
    simpl in H. by destruct b.
  - intros H. change ((c :: t) !! S (S k)) with (t !! S k).
    change ((c :: t) !! S k) with (t !! k).
    destruct (isHyphen c); [apply andb_prop in H as [_ H]|]; eauto.
Qed.

Lemma preTruncation_collapsed t : collapsed false (preTruncation t) = true.
Proof.
  unfold preTruncation.
  destruct (stripHyphens_infix
    (replaceRuns isHyphen (replaceRuns notNameChar
       (replaceRuns isColonSpace (replaceRuns isSlash (toLowerCase t))))))
    as (a & b & H1 & H2).
  set (m := replaceRuns isHyphen _) in *.
  assert (Hm : collapsed false m = true) by apply collapsed_replaceRuns.
  rewrite H2 in Hm. apply collapsed_app_r in Hm.
  rewrite H1 in Hm. by apply collapsed_app_l in Hm.
Qed.

Lemma preTruncation_head t : head (preTruncation t) <> Some "-".
Proof.
  unfold preTruncation.
  destruct (stripHyphens_infix
    (replaceRuns isHyphen (replaceRuns notNameChar
       (replaceRuns isColonSpace (replaceRuns isSlash (toLowerCase t))))))
    as (a & b & H1 & _).
  set (m := replaceRuns isHyphen _) in *.
  destruct (stripHyphens m) as [|c r] eqn:E; [done|].
  simpl in *. intros [= ->].
  by apply dropWhile_head in H1.
Qed.

Lemma lastIndexFrom_spec c (l : list ascii) i acc :
  (lastIndexFrom c l i acc = acc /\ forall j, l !! j <> Some c) \/
  (exists k : nat, lastIndexFrom c l i acc = (i + Z.of_nat k)%Z /\
     l !! k = Some c /\ forall j, k < j -> l !! j <> Some c).
Proof.
  revert i acc. induction l as [|x t IH]; intros i acc; simpl.
  - left. split; [done|]. by intros j.
  - destruct (IH (i + 1)%Z (if Ascii.eqb x c then i else acc))
      as [[H1 H2]|(k & H1 & H2 & H3)].
    + destruct (Ascii.eqb x c) eqn:E.
      * apply Ascii.eqb_eq in E as ->. right. exists 0.
        split; [lia|]. split; [done|].
        intros [|j] ?; [lia|]. apply H2.
      * left. split; [done|]. intros [|j]; [|apply H2].
        simpl. intros [= ->]. by rewrite Ascii.eqb_refl in E.
    + right. exists (S k). split; [lia|]. split; [done|].
      intros [|j] ?; [lia|]. apply H3. lia.
Qed.

Lemma lastIndexOf_spec c (l : list ascii) :
  (lastIndexOf c l = (-1)%Z /\ forall j, l !! j <> Some c) \/
  (exists k : nat, lastIndexOf c l = Z.of_nat k /\
     l !! k = Some c /\ forall j, k < j -> l !! j <> Some c).
Proof.
  destruct (lastIndexFrom_spec c l 0 (-1)) as [H|(k & H1 & H2)]; [by left|].
  right. exists k. by rewrite Z.add_0_l in H1.
Qed.

Lemma stripTrailing_id (l : list ascii) :
  last l <> Some "-" -> stripTrailingHyphens l = l.
Proof.
  intros H. apply dropEnd_id. destruct (last l) as [c|]; [|done].
  unfold isHyphen. destruct (Ascii.eqb_spec c "-"); [by subst|done].
Qed.

(** The result of the length enforcement on a text longer than the limit
    that is collapsed and does not start with a hyphen. *)
Lemma enforceMaxLength_cut (n : list ascii) :
  64 < length n -> collapsed false n = true -> head n <> Some "-" ->
  (exists k, 0 < k < 64 /\ n !! k = Some "-" /\
     (forall j, k < j < 64 -> n !! j <> Some "-") /\
     enforceMaxLength n = take k n)
  \/ ((forall j, j < 64 -> n !! j <> Some "-") /\
      enforceMaxLength n = take 64 n).
Proof.
  intros Hlen Hcol Hhead. unfold enforceMaxLength, slice0,
    KIRO_SKILL_NAME_MAX_LENGTH.
  destruct (64 <? _)%Z eqn:E; [|apply Z.ltb_ge in E; lia].
  change (Z.to_nat 64) with 64.
  destruct (lastIndexOf_spec "-" (take 64 n)) as [[H1 H2]|(k & H1 & H2 & H3)].
  - right. rewrite H1. simpl.
    assert (Hno : forall j, j < 64 -> n !! j <> Some "-").
    { intros j Hj. rewrite <- (lookup_take_lt n 64 j) by done. apply H2. }
    split; [done|]. apply stripTrailing_id.
    rewrite last_lookup, length_take, Nat.min_l by lia. simpl. apply H2.
  - assert (Hk : k < 64).
    { apply lookup_lt_Some in H2. rewrite length_take in H2. lia. }
    rewrite lookup_take_lt in H2 by done.
    destruct k as [|k].
    { exfalso. apply Hhead. by rewrite head_lookup. }
    left. exists (S k). rewrite H1.
    replace (0 <? Z.of_nat (S k))%Z with true by (symmetry; apply Z.ltb_lt; lia).
    rewrite Nat2Z.id, take_take, Nat.min_l by lia.
    split; [lia|]. split; [done|]. split.
    + intros j [Hj1 Hj2]. rewrite <- (lookup_take_lt n 64 j) by done.
      by apply H3.
    + apply stripTrailing_id.
      rewrite last_lookup, length_take, Nat.min_l by lia. simpl.
      rewrite lookup_take_lt by lia. by eapply collapsed_before.
Qed.

End Truncation.

(** ** C8: length bound and truncation *)

(** C8, as amended.  For every input, [normalizeName] returns at most 64
    characters and its result never ends in a hyphen.  When the form before
    truncation has more than 64 characters, either one of its first 64
    characters is a hyphen, and it is cut in front of the last such hyphen,
    or none is, and it is cut after 64 characters, which is in the middle
    of a word unless the next character is a hyphen; in both cases the cut
    text is the result when it starts with a lower-case letter, and the
    result is the fallback name otherwise. *)
Theorem normalizeName_bound_and_cut (value : list ascii) :
  let n := preTruncation (trim value) in
  let r := normalizeName value in
  length r <= 64 /\ last r <> Some "-" /\
  (64 < length n ->
   (exists k, 0 < k < 64 /\ n !! k = Some "-" /\
      (forall j, k < j < 64 -> n !! j <> Some "-") /\
      r = if startsWithLower n then take k n else lit "item")
   \/ ((forall j, j < 64 -> n !! j <> Some "-") /\
       r = if startsWithLower n then take 64 n else lit "item")).
Proof.
  intros n r. split; [apply normalizeName_length|].
  split; [apply normalizeName_last|]. intros Hlen.
  assert (Hr : r = if startsWithLower n then enforceMaxLength n
                   else lit "item").
  { subst r n. unfold normalizeName.
    destruct (trim value) as [|c t] eqn:Et; [simpl in Hlen; lia|].
    set (n := preTruncation (c :: t)) in *.
    destruct (enforceMaxLength_cut n Hlen (preTruncation_collapsed _)
                (preTruncation_head _)) as [(k & Hk & _ & _ & ->)|[_ ->]];
      destruct n as [|x n']; try (simpl in Hlen; lia).
    - destruct k as [|k]; [lia|]. simpl. by destruct (isLower x).
    - simpl. by destruct (isLower x). }
  destruct (enforceMaxLength_cut n Hlen (preTruncation_collapsed _)
              (preTruncation_head _)) as [(k & Hk & H1 & H2 & E)|[H1 E]];
    rewrite E in Hr.
  - left. by exists k.
  - by right.
Qed.

(** A name of 70 characters with a hyphen among the first 64. *)
Lemma normalizeName_bound_and_cut_witness :
  let value := lit "alpha-" ++ repeat "b" 64 in
  let n := preTruncation (trim value) in
  let r := normalizeName value in
  64 < length n /\
  ((exists k, 0 < k < 64 /\ n !! k = Some "-" /\
      (forall j, k < j < 64 -> n !! j <> Some "-") /\
      r = if startsWithLower n then take k n else lit "item")
   \/ ((forall j, j < 64 -> n !! j <> Some "-") /\
       r = if startsWithLower n then take 64 n else lit "item")).
Proof.
  assert (H : 64 < length
            (preTruncation (trim (lit "alpha-" ++ repeat "b" 64))))
    by (vm_compute; lia).
  split; [exact H|].
  exact (proj2 (proj2
    (normalizeName_bound_and_cut (lit "alpha-" ++ repeat "b" 64))) H).
Defined.

Example normalizeName_alpha :
  normalizeName (lit "alpha-" ++ repeat "b" 64) = lit "alpha".
Proof. vm_compute. reflexivity. Qed.

(** C8 as stated fails: a name of 70 letters is cut after the 64th letter,
    where no hyphen stands. *)
Lemma normalizeName_cuts_mid_word :
  ~ (forall value : list ascii,
       64 < length (preTruncation (trim value)) ->
       cutAtHyphen (preTruncation (trim value)) (normalizeName value)).
Proof.
  intros H. destruct (H (repeat "a" 70)) as (k & Hk & Hn & _).
  { vm_compute. lia. }
  assert (preTruncation (trim (repeat "a" 70)) = repeat "a" 70) as E
    by (vm_compute; reflexivity).
  rewrite E in Hn. apply list_elem_of_lookup_2, list_elem_of_In in Hn.
  by apply repeat_spec in Hn.
Qed.

Example normalizeName_seventy_letters :
  normalizeName (repeat "a" 70) = repeat "a" 64.
Proof. vm_compute. reflexivity. Qed.

(** ** Characters of the identifiers and path safety *)

Section PathSafety.

Lemma startsWith_head a p' (l : list ascii) :
  startsWith (a :: p') l = true -> head l = Some a.
Proof.
  destruct l as [|b t]; simpl; [done|].
  intros [H _]%andb_prop. by apply Ascii.eqb_eq in H as ->.
Qed.

Lemma includes_elem a p' (l : list ascii) :
  includes (a :: p') l = true -> a ∈ l.
Proof.
  induction l as [|b t IH]; [done|].
  cbn [includes]. intros [H|H]%orb_prop.
  - apply startsWith_head in H. injection H as ->. left.
  - right. auto.
Qed.

(** A name made of identifier characters passes the path-safety check. *)
Lemma nameChars_safe (name : list ascii) :
  Forall (fun c => isNameChar c = true) name -> unsafeName name = false.
Proof.
  intros H. rewrite Forall_forall in H. unfold unsafeName.
  destruct (includes (lit "..") name) eqn:E1.
  { by apply includes_elem, H in E1. }
  destruct (includes (lit "/") name) eqn:E2.
  { by apply includes_elem, H in E2. }
  destruct (includes (lit "\") name) eqn:E3.
  { by apply includes_elem, H in E3. }
  done.
Qed.

Lemma pretty_N_char_nameChar d : isNameChar (pretty_N_char d) = true.
Proof. unfold pretty_N_char. by repeat case_match. Qed.

Lemma pretty_N_go_chars x s :
  Forall (fun c => isNameChar c = true) (lit s) ->
  Forall (fun c => isNameChar c = true) (lit (pretty_N_go x s)).
Proof.
  revert s. induction (N.lt_wf_0 x) as [x _ IH]; intros s Hs.
  destruct (decide (x = 0)%N) as [->|Hx]; [by rewrite pretty_N_go_0|].
  rewrite pretty_N_go_step by lia. apply IH.
  - apply N.div_lt; lia.
  - simpl. constructor; [apply pretty_N_char_nameChar | exact Hs].
Qed.

Lemma pretty_nat_chars (n : nat) :
  Forall (fun c => isNameChar c = true) (lit (pretty n)).
Proof.
  unfold pretty, pretty_nat, pretty, pretty_N.
  case_decide; [by repeat constructor|].
  apply pretty_N_go_chars. constructor.
Qed.

Lemma suffixed_chars base index :
  Forall (fun c => isNameChar c = true) base ->
  Forall (fun c => isNameChar c = true) (suffixed base index).
Proof.
  intros H. unfold suffixed. apply Forall_app. split; [done|].
  constructor; [done | apply pretty_nat_chars].
Qed.

End PathSafety.

(** ** The unique-name allocator *)

Section Allocator.

Lemma lit_inj s1 s2 : lit s1 = lit s2 -> s1 = s2.
Proof.
  unfold lit. intros H.
  rewrite <- (string_of_list_ascii_of_string s1),
          <- (string_of_list_ascii_of_string s2). by rewrite H.
Qed.

Lemma suffixed_inj base i j : suffixed base i = suffixed base j -> i = j.
Proof.
  unfold suffixed. intros H%app_inv_head. injection H as H.
  by apply lit_inj, (inj pretty) in H.
Qed.

Lemma probe_exhausted fuel base used index :
  probe fuel base used index = None ->
  forall k, index <= k < index + fuel -> suffixed base k ∈ used.
Proof.
  revert index. induction fuel as [|fuel IH]; intros index; simpl.
  - intros _ k ?. lia.
  - case_decide as Hin; [|done]. intros H k Hk.
    destruct (decide (k = index)) as [->|Hne]; [done|].
    apply (IH _ H). lia.
Qed.

Lemma probe_found fuel base used index j :
  probe fuel base used index = Some j -> suffixed base j ∉ used.
Proof.
  revert index. induction fuel as [|fuel IH]; intros index; simpl; [done|].
  case_decide as Hin; [apply IH|]. by intros [= <-].
Qed.

(** The loop stops within one iteration more than the registry has names. *)
Lemma probe_total base used index :
  exists j, probe (S (size used)) base used index = Some j.
Proof.
  destruct (probe (S (size used)) base used index) as [j|] eqn:E; [by exists j|].
  exfalso. pose proof (probe_exhausted _ _ _ _ E) as H.
  set (names := suffixed base <$> seq index (S (size used))).
  assert (Hnd : NoDup names).
  { apply NoDup_fmap_2_strong; [|apply NoDup_seq].
    intros i j _ _. apply suffixed_inj. }
  assert (Hsub : list_to_set names ⊆ used).
  { intros x Hx. apply elem_of_list_to_set in Hx.
    apply list_elem_of_fmap in Hx as (k & -> & Hk).
    apply elem_of_seq in Hk. apply H. lia. }
  apply subseteq_size in Hsub.
  rewrite size_list_to_set in Hsub by done.
  unfold names in Hsub. rewrite length_fmap, length_seq in Hsub. lia.
Qed.

Lemma uniqueName_total base used :
  exists name, uniqueName base used = Some (name, {[ name ]} ∪ used).
Proof.
  unfold uniqueName. case_decide; [|by eexists].
  destruct (probe_total base used 2) as [j ->]. by eexists.
Qed.

Lemma uniqueName_spec base used name used' :
  uniqueName base used = Some (name, used') ->
  (name ∉ used) /\ used' = {[ name ]} ∪ used /\
  (name = base \/ exists index, name = suffixed base index).
Proof.
  unfold uniqueName. case_decide as Hin.
  - destruct (probe _ _ _ _) as [j|] eqn:E; [|done].
    intros [= <- <-]. split; [by eapply probe_found|]. split; [done|].
    right. by exists j.
  - intros [= <- <-]. auto.
Qed.

End Allocator.

(** ** The converter: allocation of the skill names *)

Lemma reserveSkillNames_fold (dirs : list KiroSkillDir)
    (acc : gset (list ascii)) (x : list ascii) :
  x ∈ fold_left
        (fun used skill => {[ normalizeName (kdir_name skill) ]} ∪ used)
        dirs acc
  <-> x ∈ acc \/ exists d, d ∈ dirs /\ x = normalizeName (kdir_name d).
Proof.
  revert acc. induction dirs as [|d dirs IH]; intros acc; simpl.
  - split; [auto|]. intros [H|(d & H & _)]; [done|]. by apply elem_of_nil in H.
  - rewrite IH. split.
    + intros [[H|H]%elem_of_union|(d' & H1 & H2)].
      * apply elem_of_singleton in H. right. exists d. split; [left|done].
      * by left.
      * right. exists d'. split; [by right|done].
    + intros [H|(d' & [->|H1]%elem_of_cons & H2)].
      * left. set_solver.
      * left. set_solver.
      * right. by exists d'.
Qed.

(** The registry after the reservation holds the normalized names of the
    pass-through skills, and nothing else. *)
Lemma reserveSkillNames_spec (dirs : list KiroSkillDir) (x : list ascii) :
  x ∈ reserveSkillNames dirs
  <-> exists d, d ∈ dirs /\ x = normalizeName (kdir_name d).
Proof.
  unfold reserveSkillNames. rewrite reserveSkillNames_fold.
  split; [intros [H|H]; [set_solver|done] | auto].
Qed.

Section ConverterFacts.

Variable formatFrontmatter :
  list ascii -> list ascii -> list ascii -> list ascii.

Lemma convertCommandToSkill_spec command names used :
  exists skill,
    convertCommandToSkill formatFrontmatter command names used
      = Some (skill, {[ kskill_name skill ]} ∪ used) /\
    (kskill_name skill ∉ used) /\ allocatedFor command skill.
Proof.
  unfold convertCommandToSkill, bind, ret.
  destruct (uniqueName_total (normalizeName (command_name command)) used)
    as [name E].
  rewrite E. eexists (Build_KiroSkill name _). split; [reflexivity|]. simpl.
  apply uniqueName_spec in E as (H1 & _ & H2). done.
Qed.

Lemma allocatedFor_chars command skill :
  allocatedFor command skill ->
  Forall (fun c => isNameChar c = true) (kskill_name skill).
Proof.
  intros [->|[index ->]].
  - apply normalizeName_chars.
  - apply suffixed_chars, normalizeName_chars.
Qed.

(** Allocation never fails, and the names it hands out are new and
    pairwise distinct. *)
Lemma mapAlloc_commands cmds names used :
  exists sks,
    mapAlloc (fun c => convertCommandToSkill formatFrontmatter c names) cmds used
      = Some (sks, list_to_set (kskill_name <$> sks) ∪ used) /\
    Forall2 allocatedFor cmds sks /\
    NoDup (kskill_name <$> sks) /\
    (forall sk, sk ∈ sks -> kskill_name sk ∉ used).
Proof.
  revert used. induction cmds as [|c cmds IH]; intros used.
  - exists []. simpl. unfold ret. split; [f_equal; f_equal; set_solver|].
    split; [constructor|]. split; [constructor|]. by intros sk H%elem_of_nil.
  - destruct (convertCommandToSkill_spec c names used) as (sk & E & Hnew & Hal).
    destruct (IH ({[ kskill_name sk ]} ∪ used)) as (sks & E' & Hf & Hnd & Hn).
    exists (sk :: sks). simpl. unfold bind at 1. rewrite E.
    unfold bind at 1. rewrite E'. unfold ret. split.
    { f_equal. f_equal. set_solver. }
    split; [by constructor|]. split.
    + constructor; [|done]. intros Hin.
      apply list_elem_of_fmap in Hin as (sk' & Heq & Hin).
      apply Hn in Hin. rewrite <- Heq in Hin. set_solver.
    + intros sk' [->|Hin]%elem_of_cons; [done|].
      apply Hn in Hin. set_solver.
Qed.

(** The converter always returns a bundle, which it builds as follows. *)
Lemma convert_total plugin :
  let names := map (fun a => normalizeName (agent_name a)) (agents plugin) in
  let dirs := map (fun skill => {| kdir_name := skill_name skill;
                                   kdir_sourceDir := skill_sourceDir skill |})
                (skills plugin) in
  exists bundle out,
    convertClaudeToKiro formatFrontmatter plugin = Some (bundle, out) /\
    bundle_agents bundle
      = map (fun agent => convertAgentToKiroAgent agent names)
          (agents plugin) /\
    bundle_skillDirs bundle = dirs /\
    bundle_mcpServers bundle = fst (convertMcpServers (mcpServers plugin)) /\
    mapAlloc (fun c => convertCommandToSkill formatFrontmatter c names) (commands plugin)
      (reserveSkillNames dirs)
      = Some (bundle_generatedSkills bundle,
              list_to_set (kskill_name <$> bundle_generatedSkills bundle)
                ∪ reserveSkillNames dirs).
Proof.
  intros names dirs. unfold convertClaudeToKiro.
  destruct (mapAlloc_commands (commands plugin) names (reserveSkillNames dirs))
    as (sks & E & _).
  fold names. fold dirs. rewrite E.
  destruct (convertMcpServers (mcpServers plugin)) as [servers out] eqn:Em.
  eexists _, _. split; [reflexivity|]. simpl. done.
Qed.

End ConverterFacts.

(** ** C9: the identifiers the converter produces are path-safe *)

(** C9.  The converter always returns a bundle, and in it the identifier of
    every agent record and of every generated-skill record is made of
    lower-case letters, digits, underscores and hyphens only; it contains
    neither two dots, nor a slash, nor a backslash, and [validatePathSafe]
    accepts it without raising. *)
Theorem converter_names_path_safe
    (formatFrontmatter : list ascii -> list ascii -> list ascii -> list ascii)
    (plugin : ClaudePlugin) :
  exists bundle out,
    convertClaudeToKiro formatFrontmatter plugin = Some (bundle, out) /\
    (forall agent, agent ∈ bundle_agents bundle ->
       Forall (fun c => isNameChar c = true) (kagent_name agent) /\
       includes (lit "..") (kagent_name agent) = false /\
       includes (lit "/") (kagent_name agent) = false /\
       includes (lit "\") (kagent_name agent) = false /\
       validatePathSafe (kagent_name agent) (lit "agent") = wret tt) /\
    (forall skill, skill ∈ bundle_generatedSkills bundle ->
       Forall (fun c => isNameChar c = true) (kskill_name skill) /\
       includes (lit "..") (kskill_name skill) = false /\
       includes (lit "/") (kskill_name skill) = false /\
       includes (lit "\") (kskill_name skill) = false /\
       validatePathSafe (kskill_name skill) (lit "skill") = wret tt).
Proof.
  assert (Hsafe : forall name label,
    Forall (fun c => isNameChar c = true) name ->
    Forall (fun c => isNameChar c = true) name /\
    includes (lit "..") name = false /\
    includes (lit "/") name = false /\
    includes (lit "\") name = false /\
    validatePathSafe name label = wret tt).
  { intros name label H. pose proof (nameChars_safe name H) as Hu.
    unfold validatePathSafe. rewrite Hu. unfold unsafeName in Hu.
    apply orb_false_elim in Hu as [Hu H3].
    apply orb_false_elim in Hu as [H1 H2]. done. }
  destruct (convert_total formatFrontmatter plugin)
    as (bundle & out & E & Ha & _ & _ & Hs).
  exists bundle, out. split; [exact E|]. split.
  - intros agent Hin. rewrite Ha in Hin.
    apply list_elem_of_In, in_map_iff in Hin as (a & <- & _).
    apply Hsafe. simpl. apply normalizeName_chars.
  - intros skill Hin.
    destruct (mapAlloc_commands formatFrontmatter (commands plugin)
      (map (fun a => normalizeName (agent_name a)) (agents plugin))
      (reserveSkillNames (map (fun skill =>
         {| kdir_name := skill_name skill;
            kdir_sourceDir := skill_sourceDir skill |}) (skills plugin))))
      as (sks & E' & Hf & _).
    rewrite E' in Hs. injection Hs as Hs _. subst sks.
    apply list_elem_of_lookup in Hin as [i Hi].
    destruct (Forall2_lookup_r _ _ _ _ _ Hf Hi) as (c & _ & Hal).
    apply Hsafe. by eapply allocatedFor_chars.
Qed.

(** ** C2: distinct identifiers *)

(** C2, as amended.  The converter always returns a bundle.  In it the
    identifiers of the generated skills are pairwise distinct, there is one
    for each command, in the order of the commands, each of them is the
    normalized name of its command or that name with a numeric suffix, and
    none of them is the normalized name of a pass-through skill; so none of
    them is the identifier of a pass-through skill directory whose name is
    its own normalized form.  (Agent identifiers are not covered by this
    guarantee.) *)
Theorem generated_skill_names_distinct
    (formatFrontmatter : list ascii -> list ascii -> list ascii -> list ascii)
    (plugin : ClaudePlugin) :
  exists bundle out,
    convertClaudeToKiro formatFrontmatter plugin = Some (bundle, out) /\
    NoDup (kskill_name <$> bundle_generatedSkills bundle) /\
    Forall2 allocatedFor (commands plugin) (bundle_generatedSkills bundle) /\
    (forall generated skill,
       generated ∈ bundle_generatedSkills bundle ->
       skill ∈ skills plugin ->
       kskill_name generated <> normalizeName (skill_name skill)) /\
    (forall generated dir,
       generated ∈ bundle_generatedSkills bundle ->
       dir ∈ bundle_skillDirs bundle ->
       normalizeName (kdir_name dir) = kdir_name dir ->
       kskill_name generated <> kdir_name dir).
Proof.
  destruct (convert_total formatFrontmatter plugin)
    as (bundle & out & E & _ & Hd & _ & Hs).
  exists bundle, out. split; [exact E|].
  destruct (mapAlloc_commands formatFrontmatter (commands plugin)
    (map (fun a => normalizeName (agent_name a)) (agents plugin))
    (reserveSkillNames (map (fun skill =>
       {| kdir_name := skill_name skill;
          kdir_sourceDir := skill_sourceDir skill |}) (skills plugin))))
    as (sks & E' & Hf & Hnd & Hnew).
  rewrite E' in Hs. injection Hs as Hs _. subst sks.
  split; [exact Hnd|]. split; [exact Hf|]. split.
  - intros generated skill Hg Hskill Heq.
    apply (Hnew _ Hg). apply (proj2 (reserveSkillNames_spec _ _)).
    exists {| kdir_name := skill_name skill;
              kdir_sourceDir := skill_sourceDir skill |}.
    split; [|exact Heq].
    apply list_elem_of_In, in_map_iff. exists skill.
    split; [done|]. by apply list_elem_of_In.
  - intros generated dir Hg Hdir Hnorm Heq.
    apply (Hnew _ Hg). apply (proj2 (reserveSkillNames_spec _ _)).
    exists dir. rewrite Hd in Hdir. split; [exact Hdir|]. congruence.
Qed.

(** C2 as stated fails for agents: two agents named "Code Reviewer" and
    "code-reviewer" both get the identifier "code-reviewer". *)
Lemma agent_identifiers_collide :
  ~ (forall formatFrontmatter plugin bundle out,
       convertClaudeToKiro formatFrontmatter plugin = Some (bundle, out) ->
       agentIdentifiersDistinct plugin bundle).
Proof.
  intros H.
  destruct (convert_total plainFrontmatter twoReviewers)
    as (bundle & out & E & Ha & _).
  apply (H _ _ _ _ E 0 1 (agentNamed "Code Reviewer")
           (agentNamed "code-reviewer")
           (convertAgentToKiroAgent (agentNamed "Code Reviewer")
              [lit "code-reviewer"; lit "code-reviewer"])
           (convertAgentToKiroAgent (agentNamed "code-reviewer")
              [lit "code-reviewer"; lit "code-reviewer"])).
  - reflexivity.
  - reflexivity.
  - discriminate.
  - by rewrite Ha.
  - by rewrite Ha.
  - reflexivity.
Qed.

Example two_reviewers_identifiers :
  (fun r => map kagent_name (bundle_agents (fst r)))
    <$> convertClaudeToKiro plainFrontmatter twoReviewers
  = Some [lit "code-reviewer"; lit "code-reviewer"].
Proof. vm_compute. reflexivity. Qed.

(** A command can also end up with the raw name of a pass-through skill,
    when that raw name is not its own normalized form. *)
Example long_skill_identifiers :
  (fun r => (map kskill_name (bundle_generatedSkills (fst r)),
             map kdir_name (bundle_skillDirs (fst r))))
    <$> convertClaudeToKiro plainFrontmatter longSkill
  = Some ([repeat "a" 64 ++ lit "-2"], [repeat "a" 64 ++ lit "-2"]).
Proof. vm_compute. reflexivity. Qed.

(** ** C10: pass-through skills keep their raw names *)


(** A skill named "My Skill" is stored under that name, while a command
    named "my-skill" has to give way to the reserved "my-skill". *)
Example my_skill_identifiers :
  (fun r => (map kdir_name (bundle_skillDirs (fst r)),
             map kskill_name (bundle_generatedSkills (fst r))))
    <$> convertClaudeToKiro plainFrontmatter mySkill
  = Some ([lit "My Skill"], [lit "my-skill-2"]).
Proof. vm_compute. reflexivity. Qed.

(** ** The writer: one loop over the records *)

Section WriterFacts.

Variable resolvesInside : path -> path -> bool.
Variable backupPathOf : path -> list ascii.

Lemma wbind_assoc {A B C} (m : Write A) (f : A -> Write B) (g : B -> Write C) :
  wbind (wbind m f) g = wbind m (fun x => wbind (f x) g).
Proof.
  destruct m as [t [a|msg]]; simpl; [|done].
  destruct (f a) as [t' [b|msg]]; simpl; [|done].
  destruct (g b) as [t'' r]. by rewrite app_assoc.
Qed.

Lemma wbind_wret_l {A B} (a : A) (f : A -> Write B) : wbind (wret a) f = f a.
Proof. unfold wbind, wret. by destruct (f a). Qed.

Lemma forEach_app {A} (f : A -> Write unit) l1 l2 :
  forEach f (l1 ++ l2) = (forEach f l1 ;;; forEach f l2).
Proof.
  induction l1 as [|x l1 IH]; cbn [forEach app].
  - by rewrite wbind_wret_l.
  - by rewrite IH, wbind_assoc.
Qed.

Lemma forEach_map {A B} (f : B -> Write unit) (g : A -> B) l :
  forEach f (map g l) = forEach (fun x => f (g x)) l.
Proof. induction l as [|x l IH]; simpl; [done|]. by rewrite IH. Qed.

Lemma whenNonEmpty_forEach {A} (f : A -> Write unit) l :
  whenNonEmpty l (forEach f l) = forEach f l.
Proof. by destruct l. Qed.

(** The writer visits the records in one pass and then merges the
    settings. *)
Lemma writeKiroBundle_records outputRoot existing bundle :
  writeKiroBundle resolvesInside backupPathOf outputRoot existing bundle =
  (emit (EnsureDir (kiroDir (resolveKiroPaths outputRoot))) ;;;
   forEach (writeRecord resolvesInside (resolveKiroPaths outputRoot))
     (bundleRecords bundle) ;;;
   writeMcp backupPathOf (resolveKiroPaths outputRoot) existing
     (bundle_mcpServers bundle)).
Proof.
  unfold writeKiroBundle, bundleRecords.
  rewrite !whenNonEmpty_forEach, !forEach_app, !forEach_map, !wbind_assoc.
  reflexivity.
Qed.

Lemma writeRecord_unsafe paths r :
  unsafeName (recordName r) = true ->
  writeRecord resolvesInside paths r
  = ([], Raised (unsafeMessage (recordName r) (recordLabel r))).
Proof.
  intros H. destruct r; simpl in *;
    unfold writeAgent, writeSkill, copySkillDir, writeSteering,
      validatePathSafe; by rewrite H.
Qed.

Lemma writeRecord_safe paths r :
  unsafeName (recordName r) = false ->
  writeRecord resolvesInside paths r
  = (recordEvents resolvesInside paths r, Done tt).
Proof.
  intros H. unfold recordEvents. destruct r; simpl in *;
    unfold writeAgent, writeSkill, copySkillDir, writeSteering,
      validatePathSafe; rewrite H; simpl; [done..| |done].
  by destruct (negb _).
Qed.

(** The loop stops at the first unsafe record. *)
Lemma forEach_first_unsafe paths (l : list bundleRecord) i r :
  l !! i = Some r -> unsafeName (recordName r) = true ->
  exists k r0,
    k <= i /\ l !! k = Some r0 /\ unsafeName (recordName r0) = true /\
    Forall (fun r' => unsafeName (recordName r') = false) (take k l) /\
    forEach (writeRecord resolvesInside paths) l
    = (concat (map (recordEvents resolvesInside paths) (take k l)),
       Raised (unsafeMessage (recordName r0) (recordLabel r0))).
Proof.
  revert i. induction l as [|x l IH]; intros i Hi Hr; [done|].
  destruct (unsafeName (recordName x)) eqn:Hx.
  - exists 0, x. split; [lia|]. split; [done|]. split; [done|].
    split; [constructor|]. simpl. by rewrite writeRecord_unsafe.
  - destruct i as [|i]; [simpl in Hi; congruence|].
    destruct (IH i Hi Hr) as (k & r0 & Hk & Hl & Hu & Hall & E).
    exists (S k), r0. split; [lia|]. split; [done|]. split; [done|].
    split; [by constructor|]. simpl.
    rewrite writeRecord_safe, E by done. simpl. done.
Qed.

(** Without unsafe record the loop runs to its end. *)
Lemma forEach_all_safe paths (l : list bundleRecord) :
  Forall (fun r => unsafeName (recordName r) = false) l ->
  forEach (writeRecord resolvesInside paths) l
  = (concat (map (recordEvents resolvesInside paths) l), Done tt).
Proof.
  induction 1 as [|x l Hx Hl IH]; simpl; [done|].
  rewrite writeRecord_safe, IH by done. simpl. done.
Qed.

End WriterFacts.

(** ** C4: an unsafe identifier aborts the write *)

(** C4.  When the identifier of some record of the bundle (agent, generated
    skill, pass-through skill directory or steering file) contains two dots,
    a slash or a backslash, the writer raises.  It stops at the first such
    record in its order of writing: what it has done until then is the
    creation of the target directory and the events of the records in front
    of that one, all of them safe; it performs no event for the unsafe
    record itself, none for any later record, and it does not touch the
    settings file. *)
Theorem unsafe_identifier_aborts_write
    (resolvesInside : path -> path -> bool)
    (backupPathOf : path -> list ascii)
    (outputRoot : path) (existing : existingFile) (bundle : KiroBundle)
    (i : nat) (r : bundleRecord) :
  bundleRecords bundle !! i = Some r ->
  unsafeName (recordName r) = true ->
  let paths := resolveKiroPaths outputRoot in
  exists k r0,
    k <= i /\ bundleRecords bundle !! k = Some r0 /\
    unsafeName (recordName r0) = true /\
    recordEvents resolvesInside paths r0 = [] /\
    recordEvents resolvesInside paths r = [] /\
    Forall (fun r' => unsafeName (recordName r') = false)
      (take k (bundleRecords bundle)) /\
    writeKiroBundle resolvesInside backupPathOf outputRoot existing bundle
    = (EnsureDir (kiroDir paths)
         :: concat (map (recordEvents resolvesInside paths)
                      (take k (bundleRecords bundle))),
       Raised (unsafeMessage (recordName r0) (recordLabel r0))).
Proof.
  intros Hi Hr paths.
  destruct (forEach_first_unsafe resolvesInside paths _ i r Hi Hr)
    as (k & r0 & Hk & Hl & Hu & Hall & E).
  exists k, r0. split; [done|]. split; [done|]. split; [done|].
  split. { unfold recordEvents. by rewrite writeRecord_unsafe. }
  split. { unfold recordEvents. by rewrite writeRecord_unsafe. }
  split; [done|].
  rewrite writeKiroBundle_records. fold paths.
  unfold wbind at 1. simpl. unfold wbind at 1. rewrite E. reflexivity.
Qed.

Lemma unsafe_identifier_aborts_write_witness :
  let bundle := evilBundle in
  let evil := RAgent (sampleAgent "../evil") in
  let paths := resolveKiroPaths [lit "out"] in
  exists k r0,
    k <= 1 /\ bundleRecords bundle !! k = Some r0 /\
    unsafeName (recordName r0) = true /\
    recordEvents alwaysInside paths r0 = [] /\
    recordEvents alwaysInside paths evil = [] /\
    Forall (fun r' => unsafeName (recordName r') = false)
      (take k (bundleRecords bundle)) /\
    writeKiroBundle alwaysInside sampleBackupPath [lit "out"] NoFile bundle
    = (EnsureDir (kiroDir paths)
         :: concat (map (recordEvents alwaysInside paths)
                      (take k (bundleRecords bundle))),
       Raised (unsafeMessage (recordName r0) (recordLabel r0))).
Proof.
  exact (unsafe_identifier_aborts_write alwaysInside sampleBackupPath
           [lit "out"] NoFile evilBundle 1 (RAgent (sampleAgent "../evil"))
           eq_refl eq_refl).
Defined.

Example evil_bundle_trace :
  writeKiroBundle alwaysInside sampleBackupPath [lit "out"] NoFile evilBundle
  = ([ EnsureDir [lit "out"; lit ".kiro"];
       WriteJson [lit "out"; lit ".kiro"; lit "agents"; lit "ok.json"]
         (configToJson (sampleConfig (lit "ok")));
       WriteText [lit "out"; lit ".kiro"; lit "agents"; lit "prompts";
                  lit "ok.md"] (lit "p" ++ newline) ],
     Raised (lit "agent name contains unsafe path characters: ../evil")).
Proof. reflexivity. Qed.

(** ** C5: the settings file is merged, not replaced *)

Section MergeFacts.

Variable backupPathOf : path -> list ascii.





End MergeFacts.



(** The merge of the sample settings with the sample bundle: both other
    keys, the old server and the new one. *)
Example sample_merge :
  let merged :=
    <[ lit "mcpServers" :=
         JObj ((serverToJson <$> bundle_mcpServers serverBundle)
               ∪ {[ lit "old" := serverToJson (sampleServer "legacy") ]}) ]>
      sampleSettings in
  merged !! lit "theme" = Some (JStr (lit "dark")) /\
  merged !! lit "version" = Some (JNum 2) /\
  (exists servers,
     merged !! lit "mcpServers" = Some (JObj servers) /\
     servers !! lit "old" = Some (serverToJson (sampleServer "legacy")) /\
     servers !! lit "new" = Some (serverToJson (sampleServer "run"))).
Proof.
  split; [by vm_compute|]. split; [by vm_compute|].
  eexists. split; [apply lookup_insert_eq|].
  split; by vm_compute.
Qed.

(** ** C6: servers without a command are dropped with a warning *)

Section McpFacts.






End McpFacts.




Example sample_servers_converted :
  fst (convertMcpServers (Some sampleServers))
  = {[ lit "local" := {| kmcp_command := lit "run"; kmcp_args := None;
                         kmcp_env := None |} ]} /\
  List.filter isWarn (snd (convertMcpServers (Some sampleServers)))
  = [mcpWarning (lit "remote")].
Proof. split; by vm_compute. Qed.

(** ** C3: the prompt body of an agent *)

Section PromptBody.

Lemma dropWhile_snoc_keep p (l : list ascii) c :
  p c = false -> dropWhile p (l ++ [c]) <> [].
Proof.
  intros Hc. induction l as [|x l IH]; simpl.
  - by rewrite Hc.
  - by destruct (p x).
Qed.

Lemma trim_nonempty c (l : list ascii) : isSpace c = false -> trim (c :: l) <> [].
Proof.
  intros Hc. unfold trim, trimStart, trimEnd. simpl. rewrite Hc. simpl.
  intros H. apply (f_equal (@rev ascii)) in H.
  rewrite rev_involutive in H. simpl in H.
  destruct l as [|y l'] using rev_ind.
  - simpl in H. by rewrite Hc in H.
  - rewrite rev_app_distr in H. simpl in H.
    destruct (isSpace y); [|done].
    by apply (dropWhile_snoc_keep isSpace (rev l') c Hc).
Qed.

End PromptBody.

(** C3, as amended.  For an agent with a non-empty capability list the
    prompt body is the capability list, as it is, in front of the
    transformed source body, the whole trimmed: the transformation is
    applied to the source body alone, and the capability lines do not pass
    through it.  For an agent without capabilities the prompt body is the
    transformed source body, replaced by the placeholder sentence when it is
    empty.  The prompt body of an agent is never empty. *)
Theorem agent_prompt_body (agent : ClaudeAgent)
    (knownAgentNames : list (list ascii)) :
  let transformed :=
    transformContentForKiro (trim (agent_body agent)) knownAgentNames in
  let prompt :=
    kagent_promptContent (convertAgentToKiroAgent agent knownAgentNames) in
  (forall caps, agent_capabilities agent = Some caps -> caps <> [] ->
     prompt = trim (capabilityPrefix caps ++ transformed)) /\
  (agent_capabilities agent = None \/ agent_capabilities agent = Some [] ->
     prompt = if (length transformed =? 0)%nat
              then agentPlaceholder (agent_name agent)
              else transformed) /\
  prompt <> [].
Proof.
  intros transformed prompt. subst prompt. unfold convertAgentToKiroAgent.
  fold transformed. cbn [kagent_promptContent].
  assert (Hpre : forall caps, trim (capabilityPrefix caps ++ transformed) <> []).
  { intros caps. apply trim_nonempty. done. }
  split; [|split].
  - intros caps -> Hne. destruct caps as [|c caps]; [done|].
    specialize (Hpre (c :: caps)).
    destruct (trim (capabilityPrefix (c :: caps) ++ transformed))
      as [|x t] eqn:E; [congruence|]. reflexivity.
  - by intros [-> | ->].
  - destruct (agent_capabilities agent) as [[|c caps]|].
    + destruct (length transformed =? 0)%nat eqn:E; [done|].
      apply Nat.eqb_neq in E. by destruct transformed.
    + specialize (Hpre (c :: caps)).
      destruct (trim (capabilityPrefix (c :: caps) ++ transformed))
        as [|x t] eqn:E; [congruence|]. done.
    + destruct (length transformed =? 0)%nat eqn:E; [done|].
      apply Nat.eqb_neq in E. by destruct transformed.
Qed.

Lemma agent_prompt_body_witness :
  let agent := plannerAgent in
  let names := [lit "planner"] in
  kagent_promptContent (convertAgentToKiroAgent agent names)
  = trim (capabilityPrefix [lit "/plan"]
            ++ transformContentForKiro (trim (agent_body agent)) names).
Proof.
  exact (proj1 (agent_prompt_body plannerAgent [lit "planner"])
           [lit "/plan"] eq_refl ltac:(discriminate)).
Defined.

(** C3 as stated fails: the capability line "/plan" stays as it is in the
    prompt body, while the transformation of the prefixed text would turn it
    into a skill reference. *)
Lemma capabilities_not_transformed :
  ~ (forall agent knownAgentNames,
       kagent_promptContent (convertAgentToKiroAgent agent knownAgentNames)
       = promptBodyAsClaimed agent knownAgentNames).
Proof.
  intros H. specialize (H plannerAgent [lit "planner"]).
  vm_compute in H. discriminate H.
Qed.

Example planner_prompt :
  kagent_promptContent (convertAgentToKiroAgent plannerAgent [lit "planner"])
  = lit "## Capabilities" ++ newline ++ lit "- /plan" ++ newline ++ newline
      ++ lit "Make a plan." /\
  promptBodyAsClaimed plannerAgent [lit "planner"]
  = lit "## Capabilities" ++ newline ++ lit "- the plan skill" ++ newline
      ++ newline ++ lit "Make a plan.".
Proof. split; vm_compute; reflexivity. Qed.

(** ** C1: idempotence of the content transformation *)

Section Idempotence.

(** A global replacement leaves a text without match as it is. *)
Lemma replaceGo_noMatch (m : matcher) prev l :
  matchesAnywhere m prev l = false -> replaceGo m 0 prev l = l.
Proof.
  revert prev. induction l as [|c t IH]; intros prev; [done|].
  cbn [matchesAnywhere replaceGo].
  destruct (m prev (c :: t)) as [[n out]|]; [done|].
  intros H. by rewrite IH.
Qed.

Lemma replaceAll_noTrigger (m : matcher) text :
  noTrigger m text = true -> replaceAll m text = text.
Proof.
  unfold noTrigger, replaceAll. intros H%negb_true_iff.
  by apply replaceGo_noMatch.
Qed.

Lemma rewriteTools_noTrigger tools text :
  forallb (fun p => noTrigger (matchTool (fst p) (snd p)) text) tools = true ->
  fold_left (fun acc p => replaceAll (matchTool (fst p) (snd p)) acc)
    tools text = text.
Proof.
  induction tools as [|p tools IH]; [done|].
  cbn [forallb fold_left]. intros [H1 H2]%andb_prop.
  rewrite replaceAll_noTrigger by done. auto.
Qed.


End Idempotence.

Section Inert.









End Inert.



Example busy_body_transformed :
  transformContentForKiro busyBody [lit "reviewer"]
  = lit "- Use the use_subagent tool to delegate to the code-reviewer agent: check this with ~/.kiro/x and .kiro/y, then the workflows-plan skill; use the shell tool and ask the reviewer agent".
Proof. vm_compute. reflexivity. Qed.


Example nested_task_transformed :
  transformContentForKiro nestedTask []
  = lit "Use the use_subagent tool to delegate to the foo agent: a"
      ++ newline ++ lit "Task bar(xy)" /\
  transformContentForKiro (transformContentForKiro nestedTask []) []
  = lit "Use the use_subagent tool to delegate to the foo agent: a"
      ++ newline
      ++ lit "Use the use_subagent tool to delegate to the bar agent: xy".
Proof. split; vm_compute; reflexivity. Qed.

(** ** C7: references to known agents *)

(** The two examples of C7. *)
Example known_reference_rewritten :
  transformContentForKiro (lit "@reviewer please check") [lit "reviewer"]
  = lit "the reviewer agent please check".
Proof. vm_compute. reflexivity. Qed.

Example unknown_reference_verbatim :
  transformContentForKiro (lit "@unknown please check") [lit "reviewer"]
  = lit "@unknown please check".
Proof. vm_compute. reflexivity. Qed.

(** C7.  The code at two inputs on which it departs from the claim.  With
    the known name "review", the reference to the unknown agent
    "review-er" is rewritten, because the word boundary behind the name is
    found in front of a hyphen.  With the known names "code" and
    "code-reviewer", in this order, the reference to the known agent
    "code-reviewer" is rewritten into prose that names the agent "code". *)
Theorem agent_reference_stops_at_hyphen :
  transformContentForKiro (lit "@review-er please check") [lit "review"]
  = lit "the review agent-er please check" /\
  transformContentForKiro (lit "@code-reviewer please check")
    [lit "code"; lit "code-reviewer"]
  = lit "the code agent-reviewer please check".
Proof. split; vm_compute; reflexivity. Qed.

(** * Further properties of the converter and the writer *)

(** ** Notions used in the further statements *)

Module Shapes.

(** [KIRO_SKILL_NAME_PATTERN.test(s)]: a lower-case letter followed by
    lower-case letters, digits and hyphens, up to the end of the text. *)
Definition KIRO_SKILL_NAME_PATTERN (l : list ascii) : bool :=
  match l with
  | c :: t => isLower c && forallb isAgentChar t
  | [] => false
  end.

(** Runs of the class [p] are single occurrences of [r]; [prev] tells that
    a character of the class comes just before. *)
Fixpoint runsCollapsed (p : ascii -> bool) (r : ascii) (prev : bool)
    (l : list ascii) : bool :=
  match l with
  | [] => true
  | c :: t =>
      if p c then Ascii.eqb c r && negb prev && runsCollapsed p r true t
      else runsCollapsed p r false t
  end.

(** The shape of a normalized identifier. *)
Definition wellFormedName (r : list ascii) : Prop :=
  Forall (fun c => isNameChar c = true) r /\
  collapsed false r = true /\
  startsWithLower r = true /\
  last r <> Some "-" /\
  length r <= 64.

(** A text that neither starts nor ends with white space. *)
Definition trimmed (l : list ascii) : Prop :=
  match head l with Some c => isSpace c = false | None => True end /\
  match last l with Some c => isSpace c = false | None => True end.

(** The passes behind the first one, and the passes behind the third one,
    as [transformContentForKiro] chains them. *)
Definition passesAfterTask (result1 : list ascii)
    (knownAgentNames : list (list ascii)) : list ascii :=
  let result2 := replaceAll matchRepoPath (replaceAll matchHomePath result1) in
  let result3 := replaceAll matchSlashRef result2 in
  let result4 := rewriteTools result3 in
  match knownAgentNames with
  | [] => result4
  | _ :: _ => replaceAll (matchAgentRef knownAgentNames) result4
  end.

Definition passesAfterRefs (result3 : list ascii)
    (knownAgentNames : list (list ascii)) : list ascii :=
  let result4 := rewriteTools result3 in
  match knownAgentNames with
  | [] => result4
  | _ :: _ => replaceAll (matchAgentRef knownAgentNames) result4
  end.

(** A plugin with one agent and a pass-through skill whose name holds a
    slash. *)
Definition slashSkill : ClaudePlugin :=
  {| root := lit "."; agents := [agentNamed "Code Reviewer"];
     commands := [commandNamed (lit "plan")];
     skills := [skillNamed (lit "docs/writer")];
     mcpServers := None; hooks := None; claudeMd := None |}.

(** A body with a call, a path and a slash reference, and no at-sign. *)
Definition busyBody' : list ascii :=
  lit "Task foo(bar) in .claude/x, then /plan".

(** A matcher needs the character [c] when it matches no text without it. *)
Definition needsChar (c : ascii) (m : matcher) : Prop :=
  forall prev l x, m prev l = Some x -> c ∈ l.

End Shapes.
Import Shapes.

(** ** The normalizer: fixed points, shape and letter case *)

Section NormalizerMore.

Lemma nameChar_facts c :
  isNameChar c = true ->
  toLower c = c /\ isSlash c = false /\ isColonSpace c = false /\
  notNameChar c = false /\ isSpace c = false.
Proof. ascii_cases c; vm_compute; intros H; done. Qed.

Lemma toLower_facts c :
  toLower (toLower c) = toLower c /\ isSpace (toLower c) = isSpace c /\
  (toLower c = "_" -> c = "_").
Proof. ascii_cases c; vm_compute; by repeat split. Qed.

Lemma isLower_nameChar c : isLower c = true -> isNameChar c = true.
Proof. unfold isNameChar. by intros ->. Qed.

Lemma replaceRunsGo_outside p r b (l : list ascii) :
  Forall (fun c => p c = false) l -> replaceRunsGo p r b l = l.
Proof.
  intros H. revert b. induction H as [|c t Hc _ IH]; intros b; simpl; [done|].
  by rewrite Hc, IH.
Qed.

Lemma replaceRunsGo_collapsed p r b (l : list ascii) :
  runsCollapsed p r b l = true -> replaceRunsGo p r b l = l.
Proof.
  revert b. induction l as [|c t IH]; intros b; simpl; [done|].
  destruct (p c).
  - intros [[Hc Hb]%andb_prop Ht]%andb_prop.
    apply Ascii.eqb_eq in Hc as ->. apply negb_true_iff in Hb as ->.
    by rewrite IH.
  - intros Ht. by rewrite IH.
Qed.

Lemma runsCollapsed_replaceRuns p r b (l : list ascii) :
  p r = true -> runsCollapsed p r b (replaceRunsGo p r b l) = true.
Proof.
  intros Hr. revert b. induction l as [|c t IH]; intros b; simpl; [done|].
  destruct (p c) eqn:E.
  - destruct b; [apply IH|]. simpl. by rewrite Hr, Ascii.eqb_refl, IH.
  - simpl. by rewrite E, IH.
Qed.

Lemma runsCollapsed_weaken p r b (l : list ascii) :
  runsCollapsed p r b l = true -> runsCollapsed p r false l = true.
Proof.
  destruct l as [|c t]; simpl; [done|]. destruct (p c); [|done].
  intros [[-> _]%andb_prop ->]%andb_prop. done.
Qed.

Lemma runsCollapsed_app_r p r b (l1 l2 : list ascii) :
  runsCollapsed p r b (l1 ++ l2) = true -> runsCollapsed p r false l2 = true.
Proof.
  revert b. induction l1 as [|c t IH]; intros b; simpl.
  - apply runsCollapsed_weaken.
  - destruct (p c); [intros [_ H]%andb_prop|intros H]; eauto.
Qed.

Lemma runsCollapsed_app_l p r b (l1 l2 : list ascii) :
  runsCollapsed p r b (l1 ++ l2) = true -> runsCollapsed p r b l1 = true.
Proof.
  revert b. induction l1 as [|c t IH]; intros b; simpl; [done|].
  destruct (p c); [|by eauto].
  intros [-> H]%andb_prop. simpl. eauto.
Qed.

Lemma runsCollapsed_outside p r b (l1 l2 : list ascii) :
  runsCollapsed p r b l1 = true -> Forall (fun c => p c = false) l2 ->
  runsCollapsed p r b (l1 ++ l2) = true.
Proof.
  intros H1 H2. revert b H1. induction l1 as [|c t IH]; intros b; simpl.
  - intros _. revert b.
    induction H2 as [|d l2 Hd _ IH]; intros b; simpl; [done|].
    by rewrite Hd.
  - destruct (p c); [|by eauto].
    intros [-> H]%andb_prop. simpl. eauto.
Qed.

Lemma collapsed_runs b (l : list ascii) :
  collapsed b l = true -> runsCollapsed isHyphen "-" b l = true.
Proof.
  revert b. induction l as [|c t IH]; intros b; simpl; [done|].
  destruct (isHyphen c) eqn:E; [|by eauto].
  intros [-> H]%andb_prop. unfold isHyphen in E. rewrite E. simpl. eauto.
Qed.

Lemma trimmed_trim (l : list ascii) : trimmed l -> trim l = l.
Proof.
  intros [Hh Hl]. unfold trim, trimStart, trimEnd.
  rewrite (dropWhile_id isSpace l).
  - by apply dropEnd_id.
  - destruct l; [done|]. exact Hh.
Qed.

Lemma trim_trimmed (l : list ascii) : trimmed (trim l).
Proof.
  unfold trim, trimStart, trimEnd. split.
  - destruct (dropEnd_prefix isSpace (dropWhile isSpace l)) as [k Hk].
    destruct (rev _) as [|c t] eqn:E; [done|]. simpl.
    simpl in Hk. by apply dropWhile_head in Hk.
  - destruct (last _) as [c|] eqn:E; [|done]. by apply dropEnd_last in E.
Qed.

Lemma wellFormed_trimmed r : wellFormedName r -> trimmed r /\ r <> [].
Proof.
  intros (Hc & _ & Hs & Hl & _). destruct r as [|c t]; [done|].
  split; [|done]. split.
  - simpl in *.
    by apply isLower_nameChar, nameChar_facts in Hs as (_ & _ & _ & _ & Hs).
  - destruct (last (c :: t)) as [d|] eqn:E; [|done].
    apply last_Some in E as [l' E]. rewrite E in Hc.
    apply Forall_app in Hc as [_ Hc]. apply Forall_cons in Hc as [Hd _].
    by apply nameChar_facts in Hd as (_ & _ & _ & _ & Hd).
Qed.

(** A text of the shape of a normalized identifier is left as it is. *)
Lemma wellFormed_fixed r : wellFormedName r -> normalizeName r = r.
Proof.
  intros H. destruct (wellFormed_trimmed r H) as [Ht Hne].
  destruct H as (Hc & Hcol & Hs & Hl & Hlen).
  unfold normalizeName. rewrite trimmed_trim by done.
  destruct r as [|c t] eqn:Er; [done|]. rewrite <- Er in *.
  assert (Hpre : preTruncation r = r).
  { unfold preTruncation, replaceRuns, toLowerCase.
    assert (Hlow : map toLower r = r).
    { clear -Hc. induction Hc as [|x l Hx _ IH]; [done|]. simpl.
      apply nameChar_facts in Hx as [-> _]. by rewrite IH. }
    rewrite Hlow.
    rewrite (replaceRunsGo_outside isSlash).
    2:{ eapply Forall_impl; [exact Hc|]. intros x Hx.
        by apply nameChar_facts in Hx as (_ & Hx & _). }
    rewrite (replaceRunsGo_outside isColonSpace).
    2:{ eapply Forall_impl; [exact Hc|]. intros x Hx.
        by apply nameChar_facts in Hx as (_ & _ & Hx & _). }
    rewrite (replaceRunsGo_outside notNameChar).
    2:{ eapply Forall_impl; [exact Hc|]. intros x Hx.
        by apply nameChar_facts in Hx as (_ & _ & _ & Hx & _). }
    rewrite (replaceRunsGo_collapsed isHyphen) by by apply collapsed_runs.
    unfold stripHyphens. rewrite (dropWhile_id isHyphen r).
    - apply dropEnd_id. destruct (last r) as [d|]; [|done].
      unfold isHyphen. destruct (Ascii.eqb_spec d "-"); [by subst|done].
    - rewrite Er. rewrite Er in Hs. simpl in Hs. revert Hs. clear.
      ascii_cases c; by vm_compute. }
  rewrite Hpre. unfold enforceMaxLength, KIRO_SKILL_NAME_MAX_LENGTH.
  replace (64 <? Z.of_nat (length r))%Z with false
    by (symmetry; apply Z.ltb_ge; lia).
  rewrite Hs. simpl. destruct (length r =? 0)%nat eqn:E; [|done].
  apply Nat.eqb_eq in E. rewrite Er in E. done.
Qed.

Lemma enforceMaxLength_nonempty_head n :
  enforceMaxLength n <> [] -> head (enforceMaxLength n) = head n.
Proof.
  intros H. destruct (enforceMaxLength_prefix n) as [k Hk].
  destruct (enforceMaxLength n) as [|c t]; [done|]. by rewrite Hk.
Qed.

Lemma normalizeName_wellFormed value : wellFormedName (normalizeName value).
Proof.
  split; [apply normalizeName_chars|].
  split; [|split; [|split; [apply normalizeName_last
                           |apply normalizeName_length]]].
  - unfold normalizeName. destruct (trim value) as [|c t]; [done|].
    destruct (_ || _); [done|].
    destruct (enforceMaxLength_prefix (preTruncation (c :: t))) as [k Hk].
    pose proof (preTruncation_collapsed (c :: t)) as H.
    rewrite Hk in H. by apply collapsed_app_l in H.
  - unfold normalizeName. destruct (trim value) as [|c t]; [done|].
    destruct (length _ =? 0)%nat; simpl; [done|].
    by destruct (startsWithLower (enforceMaxLength _)) eqn:E.
Qed.

End NormalizerMore.

(** X1.  Normalizing is idempotent: the normalized form of a normalized
    identifier is that identifier. *)
Theorem normalizeName_idempotent (value : list ascii) :
  normalizeName (normalizeName value) = normalizeName value.
Proof. apply wellFormed_fixed, normalizeName_wellFormed. Qed.

(** X2.  The normalized identifier starts with a lower-case letter and
    consists of lower-case letters, digits, underscores and hyphens.  It
    satisfies the skill-name pattern of the target exactly when it has no
    underscore, and it has none when the source name has none. *)
Theorem normalizeName_matches_pattern (value : list ascii) :
  let r := normalizeName value in
  startsWithLower r = true /\
  forallb isNameChar r = true /\
  (KIRO_SKILL_NAME_PATTERN r = true <-> "_" ∉ r) /\
  ("_" ∉ value -> "_" ∉ r).
Proof.
  intros r. destruct (normalizeName_wellFormed value)
    as (Hc & _ & Hs & _ & _). fold r in Hc, Hs.
  split; [exact Hs|]. split.
  { apply forallb_forall. intros c Hin. rewrite Forall_forall in Hc.
    by apply Hc, list_elem_of_In. }
  split.
  - destruct r as [|c t]; [done|]. simpl in Hs. simpl. rewrite Hs. simpl.
    apply Forall_cons in Hc as [_ Hc]. rewrite Forall_forall in Hc. split.
    + intros Hall [Hx|Hin]%elem_of_cons.
      * subst c. done.
      * rewrite forallb_forall in Hall.
        apply list_elem_of_In, Hall in Hin. done.
    + intros Hno. apply forallb_forall. intros x Hin.
      apply list_elem_of_In in Hin. specialize (Hc x Hin).
      assert (Hx : x <> "_") by (intros ->; apply Hno; by right).
      revert Hc Hx. clear. unfold isNameChar, isAgentChar.
      destruct (Ascii.eqb_spec x "_"); [done|]. intros Hc _.
      by rewrite orb_false_r in Hc.
  - intros Hno. subst r.
    assert (Q : Forall (fun c => c <> "_") value).
    { apply Forall_forall. intros c Hin ->. by apply Hno. }
    assert (Qr : Forall (fun c => c <> "_") (normalizeName value)).
    { unfold normalizeName.
      assert (Qt : Forall (fun c => c <> "_") (trim value)).
      { unfold trim, trimEnd, trimStart.
        by apply Forall_rev, Forall_dropWhile, Forall_rev, Forall_dropWhile. }
      destruct (trim value) as [|c t]; [by repeat constructor|].
      destruct (_ || _); [by repeat constructor|].
      eapply Forall_prefix_of; [apply enforceMaxLength_prefix|].
      unfold preTruncation, stripHyphens, replaceRuns, toLowerCase.
      apply Forall_rev, Forall_dropWhile, Forall_rev, Forall_dropWhile.
      do 4 (apply replaceRunsGo_keeps; [done|]).
      apply Forall_map. eapply Forall_impl; [exact Qt|].
      intros x Hx Hl. by apply toLower_facts in Hl. }
    intros Hin. rewrite Forall_forall in Qr. by apply Qr in Hin.
Qed.

(** X3.  Letter case does not matter: a name and its lower-case form have
    the same normalized identifier. *)
Theorem normalizeName_ignores_case (value : list ascii) :
  normalizeName (toLowerCase value) = normalizeName value.
Proof.
  assert (Hd : forall l, dropWhile isSpace (map toLower l)
                         = map toLower (dropWhile isSpace l)).
  { induction l as [|c t IH]; [done|]. simpl.
    destruct (toLower_facts c) as (_ & -> & _).
    by destruct (isSpace c). }
  assert (Ht : trim (toLowerCase value) = toLowerCase (trim value)).
  { unfold trim, trimEnd, trimStart, toLowerCase.
    by rewrite Hd, <- map_rev, Hd, map_rev. }
  unfold normalizeName. rewrite Ht.
  destruct (trim value) as [|c t]; [done|].
  change (toLowerCase (c :: t)) with (toLower c :: toLowerCase t).
  assert (Hp : preTruncation (toLower c :: toLowerCase t)
               = preTruncation (c :: t)).
  { unfold preTruncation. f_equal. f_equal. f_equal. f_equal. f_equal.
    change (toLower c :: toLowerCase t) with (toLowerCase (c :: t)).
    unfold toLowerCase. rewrite map_map. apply map_ext.
    intros x. by apply toLower_facts. }
  by rewrite Hp.
Qed.

(** ** The allocator: first fit *)

Section AllocatorMore.

Lemma probe_least fuel base used index j :
  probe fuel base used index = Some j ->
  index <= j /\ forall k, index <= k < j -> suffixed base k ∈ used.
Proof.
  revert index. induction fuel as [|fuel IH]; intros index; simpl; [done|].
  case_decide as Hin.
  - intros H. destruct (IH _ H) as [Hle Hall]. split; [lia|].
    intros k Hk. destruct (decide (k = index)) as [->|Hne]; [done|].
    apply Hall. lia.
  - intros [= <-]. split; [lia|]. intros k Hk. lia.
Qed.

Lemma suffixed_longer base index : suffixed base index <> base.
Proof.
  unfold suffixed. intros H. apply (f_equal length) in H.
  rewrite length_app in H. simpl in H. lia.
Qed.

End AllocatorMore.

(** X4.  The allocator always returns.  It returns the base name itself
    when the registry does not hold it; otherwise it returns the base name
    with the suffix [-k] for the least [k] from 2 on whose suffixed form the
    registry does not hold.  The name it returns was not in the registry,
    and the registry after the call is the old one with that name added. *)
Theorem uniqueName_first_fit (base : list ascii) (used : gset (list ascii)) :
  exists name,
    uniqueName base used = Some (name, {[ name ]} ∪ used) /\
    (name ∉ used) /\
    (base ∉ used -> name = base) /\
    (base ∈ used ->
     exists k, 2 <= k /\ name = suffixed base k /\
               forall j, 2 <= j < k -> suffixed base j ∈ used).
Proof.
  unfold uniqueName. case_decide as Hin.
  - destruct (probe_total base used 2) as [k E]. rewrite E.
    eexists. split; [reflexivity|]. split; [by eapply probe_found|].
    split; [done|]. intros _. exists k.
    destruct (probe_least _ _ _ _ _ E) as [Hle Hall]. done.
  - eexists. split; [reflexivity|]. done.
Qed.

(** ** Descriptions *)

Section DescriptionFacts.

Lemma space_class : isSpace " " = true.
Proof. reflexivity. Qed.

Lemma runsCollapsed_prefix p r b (l1 l2 : list ascii) :
  l1 `prefix_of` l2 -> runsCollapsed p r b l2 = true ->
  runsCollapsed p r b l1 = true.
Proof. intros [k ->]. apply runsCollapsed_app_l. Qed.

Lemma runsCollapsed_suffix p r b (l1 l2 : list ascii) :
  l1 `suffix_of` l2 -> runsCollapsed p r b l2 = true ->
  runsCollapsed p r false l1 = true.
Proof. intros [k ->]. apply runsCollapsed_app_r. Qed.

(** The white space of a description before it is cut: single spaces,
    none at its ends. *)
Lemma squeezed_shape value :
  let n := trim (replaceRunsGo isSpace " " false value) in
  runsCollapsed isSpace " " false n = true /\ trimmed n.
Proof.
  intros n. split; [|apply trim_trimmed].
  subst n. unfold trim, trimEnd, trimStart.
  eapply runsCollapsed_prefix; [apply dropEnd_prefix|].
  eapply runsCollapsed_suffix; [apply dropWhile_suffix|].
  by apply runsCollapsed_replaceRuns.
Qed.

Lemma trimmed_head_prefix (a n : list ascii) :
  a `prefix_of` n -> trimmed n -> a <> [] ->
  match head a with Some c => isSpace c = false | None => True end.
Proof.
  intros [k ->] [Hh _] Ha. destruct a as [|c t]; [done|]. exact Hh.
Qed.

(** The description is at most 1024 characters long, its white space
    consists of single spaces, and it has none at its ends. *)
Lemma sanitizeDescription_shape value :
  let d := sanitizeDescription value in
  length d <= 1024 /\ runsCollapsed isSpace " " false d = true /\ trimmed d.
Proof.
  intros d. subst d. unfold sanitizeDescription, KIRO_DESCRIPTION_MAX_LENGTH.
  destruct (squeezed_shape value) as [Hc Ht].
  set (n := trim (replaceRunsGo isSpace " " false value)) in *.
  destruct (length n <=? 1024)%nat eqn:E.
  { apply Nat.leb_le in E. done. }
  change (Nat.max 0 (1024 - length (lit "..."))) with 1021.
  set (a := trimEnd (firstn 1021 n)).
  assert (Hpre : a `prefix_of` n).
  { unfold a, trimEnd. etrans; [apply dropEnd_prefix|apply prefix_take]. }
  split; [|split].
  - rewrite length_app. simpl.
    assert (length a <= 1021); [|lia].
    unfold a, trimEnd. etrans; [apply dropEnd_length|].
    rewrite length_take. lia.
  - apply runsCollapsed_outside; [by eapply runsCollapsed_prefix|].
    by repeat constructor.
  - split.
    + destruct a as [|c t] eqn:Ea; [done|].
      apply (trimmed_head_prefix (c :: t) n Hpre Ht). done.
    + rewrite last_app. done.
Qed.

End DescriptionFacts.

(** X5.  A sanitized description is at most 1024 characters long; every
    white-space character in it is a plain space, no two of them are
    neighbours, and it neither starts nor ends with white space. *)
Theorem sanitizeDescription_bounded (value : list ascii) :
  let d := sanitizeDescription value in
  length d <= 1024 /\
  (forall i c, d !! i = Some c -> isSpace c = true ->
     c = " " /\ 0 < i /\ S i < length d /\
     (forall c', d !! S i = Some c' -> isSpace c' = false)).
Proof.
  intros d. destruct (sanitizeDescription_shape value) as (Hlen & Hc & Ht).
  fold d in Hlen, Hc, Ht. split; [exact Hlen|].
  intros i c Hi Hs.
  assert (Hgen : forall (l : list ascii) b j x,
    runsCollapsed isSpace " " b l = true -> l !! j = Some x ->
    isSpace x = true ->
    x = " " /\ (j = 0 -> b = false) /\
    (forall y, l !! S j = Some y -> isSpace y = false)).
  { clear. induction l as [|a l IH]; intros b j x Hc Hj Hx; [done|].
    simpl in Hc. destruct j as [|j].
    - simpl in Hj. injection Hj as ->. rewrite Hx in Hc.
      apply andb_prop in Hc as [[He Hb]%andb_prop Hc].
      apply Ascii.eqb_eq in He. apply negb_true_iff in Hb.
      split; [done|]. split; [done|].
      intros y Hy. destruct l as [|z l]; [done|]. simpl in Hy.
      injection Hy as ->. simpl in Hc. destruct (isSpace y); [|done].
      by rewrite andb_false_r in Hc.
    - change ((a :: l) !! S j) with (l !! j) in Hj.
      assert (Hc' : exists b', runsCollapsed isSpace " " b' l = true).
      { destruct (isSpace a); [|by eexists].
        apply andb_prop in Hc as [_ Hc]. by eexists. }
      destruct Hc' as [b' Hc'].
      destruct (IH b' j x Hc' Hj Hx) as (H1 & _ & H3).
      split; [done|]. split; [done|]. exact H3. }
  destruct (Hgen d false i c Hc Hi Hs) as (H1 & _ & H3).
  split; [done|]. destruct Ht as [Hh Hl].
  split; [|split; [|exact H3]].
  - destruct i as [|i]; [|lia]. rewrite head_lookup, Hi in Hh. congruence.
  - apply lookup_lt_Some in Hi as Hlt.
    destruct (decide (S i = length d)) as [Heq|]; [|lia].
    rewrite last_lookup, <- Heq in Hl. simpl in Hl. rewrite Hi in Hl.
    congruence.
Qed.

(** X6.  Sanitizing is idempotent: a sanitized description is left as it
    is. *)
Theorem sanitizeDescription_idempotent (value : list ascii) :
  sanitizeDescription (sanitizeDescription value) = sanitizeDescription value.
Proof.
  destruct (sanitizeDescription_shape value) as (Hlen & Hc & Ht).
  set (d := sanitizeDescription value) in *.
  unfold sanitizeDescription at 1.
  rewrite (replaceRunsGo_collapsed isSpace " " false d Hc).
  rewrite (trimmed_trim d Ht).
  unfold KIRO_DESCRIPTION_MAX_LENGTH.
  by replace (length d <=? 1024)%nat with true
    by (symmetry; by apply Nat.leb_le).
Qed.

(** ** The transformation on single references and calls *)

Section TransformMore.

Lemma elem_of_dropWhile p (c : ascii) (l : list ascii) :
  c ∈ dropWhile p l -> c ∈ l.
Proof.
  intros H. destruct (dropWhile_suffix p l) as [k Hk]. rewrite Hk.
  apply elem_of_app. by right.
Qed.

Lemma needsChar_task : needsChar "T" matchTask.
Proof.
  intros prev l x. unfold matchTask. destruct (atLineStart prev); [|done].
  set (r1 := dropWhile isSpace l).
  set (r2 := match r1 with "-" :: t => t | _ => r1 end).
  destruct (dropWhile isSpace r2) as [|c r4] eqn:E3; [done|].
  intros H.
  assert (Hc : c = "T").
  { destruct (Ascii.eqb_spec c "T") as [->|Hne]; [done|].
    exfalso. revert H.
    ascii_cases c; try done; exfalso; by apply Hne. }
  subst c. apply (elem_of_dropWhile isSpace). fold r1.
  assert (H2 : "T" ∈ r2).
  { apply (elem_of_dropWhile isSpace). rewrite E3. left. }
  subst r2. destruct r1 as [|d t]; [done|].
  destruct (Ascii.eqb_spec d "-") as [->|Hne]; [by right|].
  revert H2. ascii_cases d; try done; exfalso; by apply Hne.
Qed.

Lemma needsChar_literal bnd c pat repl :
  needsChar c (matchLiteral bnd (c :: pat) repl).
Proof.
  intros prev l x. unfold matchLiteral.
  destruct (startsWith (c :: pat) l) eqn:E; [|by rewrite andb_false_r].
  intros _. apply startsWith_head in E. destruct l as [|d t]; [done|].
  injection E as ->. left.
Qed.

Lemma needsChar_slashRef : needsChar "/" matchSlashRef.
Proof.
  intros prev l x. unfold matchSlashRef. destruct (refBoundary prev); [|done].
  destruct l as [|a l]; [done|].
  destruct (Ascii.eqb_spec a "`") as [->|Ha].
  - destruct l as [|b l]; [done|].
    destruct (Ascii.eqb_spec b "/") as [->|Hb]; [intros _; right; left|].
    ascii_cases b; try done; exfalso; by apply Hb.
  - destruct (Ascii.eqb_spec a "/") as [->|Hb]; [intros _; left|].
    ascii_cases a; try done; exfalso; (by apply Ha) || (by apply Hb).
Qed.

Lemma needsChar_tool c tool kiroTool :
  needsChar c (matchTool (c :: tool) kiroTool).
Proof.
  intros prev l x. unfold matchTool.
  destruct (startsWith (c :: tool) l) eqn:E; [|by rewrite andb_false_r].
  intros _. apply startsWith_head in E. destruct l as [|d t]; [done|].
  injection E as ->. left.
Qed.

Lemma needsChar_agentRef names : needsChar "@" (matchAgentRef names).
Proof.
  intros prev l x. unfold matchAgentRef. destruct l as [|a l]; [done|].
  destruct (Ascii.eqb_spec a "@") as [->|Ha]; [intros _; left|].
  ascii_cases a; try done; exfalso; by apply Ha.
Qed.

(** Without the character a matcher needs, a text has no match. *)
Lemma noMatch_without c m prev (l : list ascii) :
  needsChar c m -> c ∉ l -> matchesAnywhere m prev l = false.
Proof.
  intros Hm. revert prev. induction l as [|a t IH]; intros prev Hc; [done|].
  cbn [matchesAnywhere].
  destruct (m prev (a :: t)) as [x|] eqn:E.
  - by apply Hm in E.
  - apply IH. intros H. apply Hc. by right.
Qed.

Lemma replaceAll_without c m (l : list ascii) :
  needsChar c m -> c ∉ l -> replaceAll m l = l.
Proof.
  intros Hm Hc. apply replaceGo_noMatch. by eapply noMatch_without.
Qed.

Lemma rewriteTools_without (l : list ascii) :
  Forall (fun c => c ∉ l) (lit "BWREGT") -> rewriteTools l = l.
Proof.
  intros H. unfold rewriteTools. apply rewriteTools_noTrigger.
  apply forallb_forall. intros p Hp. unfold noTrigger.
  apply negb_true_iff.
  repeat (apply Forall_cons in H as [? H]).
  unfold CLAUDE_TO_KIRO_TOOLS in Hp. simpl in Hp.
  repeat (destruct Hp as [<-|Hp];
          [by eapply noMatch_without; [apply needsChar_tool|]|]).
  done.
Qed.

(** The passes as a chain. *)
Lemma transform_chain body names :
  transformContentForKiro body names
  = passesAfterTask (replaceAll matchTask body) names.
Proof. reflexivity. Qed.

Lemma passesAfterTask_chain result1 names :
  passesAfterTask result1 names
  = passesAfterRefs
      (replaceAll matchSlashRef
         (replaceAll matchRepoPath (replaceAll matchHomePath result1)))
      names.
Proof. reflexivity. Qed.

Lemma inert_without text c :
  inert text = true -> triggerChar c = true -> c ∉ text.
Proof.
  unfold inert. intros H Hc Hin. rewrite forallb_forall in H.
  apply list_elem_of_In, H in Hin. by rewrite Hc in Hin.
Qed.

(** The passes behind the first one leave an inert text as it is. *)
Lemma passesAfterTask_inert text names :
  inert text = true -> passesAfterTask text names = text.
Proof.
  intros Hi. unfold passesAfterTask.
  rewrite (replaceAll_without "~" matchHomePath);
    [|apply needsChar_literal|by apply inert_without].
  rewrite (replaceAll_without "." matchRepoPath);
    [|apply needsChar_literal|by apply inert_without].
  rewrite (replaceAll_without "/" matchSlashRef);
    [|apply needsChar_slashRef|by apply inert_without].
  rewrite rewriteTools_without
    by (repeat constructor; by apply inert_without).
  destruct names as [|n names]; [done|].
  apply (replaceAll_without "@");
    [apply needsChar_agentRef|by apply inert_without].
Qed.

Lemma passesAfterRefs_inert text names :
  inert text = true -> passesAfterRefs text names = text.
Proof.
  intros Hi. unfold passesAfterRefs.
  rewrite rewriteTools_without
    by (repeat constructor; by apply inert_without).
  destruct names as [|n names]; [done|].
  apply (replaceAll_without "@");
    [apply needsChar_agentRef|by apply inert_without].
Qed.

Lemma inert_app a b : inert (a ++ b) = inert a && inert b.
Proof. unfold inert. apply forallb_app. Qed.

Lemma nameChars_inert (n : list ascii) :
  Forall (fun c => isNameChar c = true) n -> inert n = true.
Proof.
  intros H. unfold inert. apply forallb_forall. intros c Hc.
  rewrite Forall_forall in H. apply list_elem_of_In, H in Hc.
  revert Hc. by ascii_cases c.
Qed.

Lemma spaces_inert (ws : list ascii) :
  Forall (fun c => isSpace c = true) ws -> inert ws = true.
Proof.
  intros H. unfold inert. apply forallb_forall. intros c Hc.
  rewrite Forall_forall in H. apply list_elem_of_In, H in Hc.
  revert Hc. by ascii_cases c.
Qed.

Lemma inert_sub (l k : list ascii) :
  (forall c, c ∈ k -> c ∈ l) -> inert l = true -> inert k = true.
Proof.
  unfold inert. rewrite !forallb_forall. intros Hs H c Hc.
  apply H, list_elem_of_In, Hs, list_elem_of_In, Hc.
Qed.

Lemma trim_inert (l : list ascii) : inert l = true -> inert (trim l) = true.
Proof.
  apply inert_sub. intros c. unfold trim, trimEnd, trimStart.
  intros H. apply list_elem_of_In, in_rev, list_elem_of_In in H.
  apply elem_of_dropWhile in H.
  apply list_elem_of_In, in_rev, list_elem_of_In in H.
  by apply elem_of_dropWhile in H.
Qed.

(** Passing over the rest of a match. *)
Lemma replaceGo_skip m (a rest : list ascii) prev :
  replaceGo m (length a) prev (a ++ rest)
  = replaceGo m 0 (match last a with Some c => Some c | None => prev end)
      rest.
Proof.
  revert prev. induction a as [|x a IH]; intros prev; [done|].
  simpl. rewrite IH. destruct a as [|y a]; [done|].
  change (last (x :: y :: a)) with (last (y :: a)).
  destruct (last (y :: a)) eqn:E; [done|]. by apply last_None in E.
Qed.

Lemma replaceGo_skip_all m (a : list ascii) prev :
  replaceGo m (length a) prev a = [].
Proof.
  rewrite <- (app_nil_r a) at 2. rewrite replaceGo_skip.
  by destruct (last a).
Qed.

Lemma takeWhile_all p (l : list ascii) :
  Forall (fun c => p c = true) l -> takeWhile p l = l /\ dropWhile p l = [].
Proof.
  induction 1 as [|c t Hc _ [IH1 IH2]]; [done|]. simpl.
  by rewrite Hc, IH1, IH2.
Qed.

Lemma takeWhile_stop p (a : list ascii) c l :
  Forall (fun c => p c = true) a -> p c = false ->
  takeWhile p (a ++ c :: l) = a /\ dropWhile p (a ++ c :: l) = c :: l.
Proof.
  intros Ha Hc. induction Ha as [|x t Hx _ [IH1 IH2]]; simpl.
  - by rewrite Hc.
  - by rewrite Hx, IH1, IH2.
Qed.

End TransformMore.

Section References.

(** A match that spans the whole text. *)
Lemma replaceAll_whole (m : matcher) (l out : list ascii) :
  l <> [] -> m None l = Some (length l, out) -> replaceAll m l = out.
Proof.
  intros Hl E. destruct l as [|a t]; [done|].
  unfold replaceAll. cbn [replaceGo]. rewrite E. simpl.
  by rewrite replaceGo_skip_all, app_nil_r.
Qed.

(** A match at the start of the text. *)
Lemma replaceAll_head (m : matcher) (a : ascii) (t rest out : list ascii) :
  m None (a :: t ++ rest) = Some (S (length t), out) ->
  replaceAll m (a :: t ++ rest)
  = out ++ replaceGo m 0 (Some (default a (last t))) rest.
Proof.
  intros E. unfold replaceAll. cbn [replaceGo]. rewrite E.
  rewrite replaceGo_skip. by destruct (last t).
Qed.

Lemma matchTask_off_line x l :
  isLineTerminator x = false -> matchTask (Some x) l = None.
Proof. intros H. unfold matchTask. simpl. by rewrite H. Qed.

Lemma matchTask_nowhere x (l : list ascii) :
  isLineTerminator x = false ->
  Forall (fun c => isLineTerminator c = false) l ->
  matchesAnywhere matchTask (Some x) l = false.
Proof.
  intros Hx H. revert x Hx.
  induction H as [|c t Hc _ IH]; intros x Hx; [done|].
  cbn [matchesAnywhere]. rewrite matchTask_off_line by done. by apply IH.
Qed.

Lemma cmdChar_facts c :
  isCmdChar c = true ->
  isLineTerminator c = false /\ c <> "~" /\ c <> "." /\ c <> "`"
  /\ c <> "/".
Proof. ascii_cases c; vm_compute; intros H; done. Qed.

Lemma startsWith_app (n rest : list ascii) : startsWith n (n ++ rest) = true.
Proof.
  induction n as [|c n IH]; [done|]. simpl. by rewrite Ascii.eqb_refl, IH.
Qed.

Lemma firstPeer_skip before names (r : list ascii) :
  Forall (fun m => startsWith m r = false) before ->
  firstPeer (before ++ names) r = firstPeer names r.
Proof.
  induction 1 as [|m before Hm _ IH]; [done|]. simpl. by rewrite Hm.
Qed.

Lemma agentRef_pre names (pre l : list ascii) prev :
  "@" ∉ pre ->
  replaceGo (matchAgentRef names) 0 prev (pre ++ l)
  = pre ++ replaceGo (matchAgentRef names) 0 None l.
Proof.
  assert (Hprev : forall l p q,
    replaceGo (matchAgentRef names) 0 p l
    = replaceGo (matchAgentRef names) 0 q l).
  { intros k p q. by destruct k. }
  revert prev. induction pre as [|a pre IH]; intros prev Hno.
  { apply Hprev. }
  assert (Ha : a <> "@") by (intros ->; apply Hno; left).
  assert (Hpre : "@" ∉ pre) by (intros H; apply Hno; by right).
  cbn [app replaceGo].
  assert (E : matchAgentRef names prev (a :: pre ++ l) = None).
  { unfold matchAgentRef. revert Ha. clear.
    ascii_cases a; try done; intros H; by exfalso. }
  rewrite E. by rewrite IH.
Qed.

End References.

(** X7.  A slash command reference that makes up the whole text, with or
    without backticks around it, is rewritten into the prose that names the
    skill by the normalized command name, whatever the known agent names
    are. *)
Theorem slash_reference_names_skill
    (tick1 tick2 : bool) (c : ascii) (tail : list ascii)
    (knownAgentNames : list (list ascii)) :
  isAlpha c = true ->
  Forall (fun x => isCmdChar x = true) tail ->
  transformContentForKiro
    ((if tick1 then ["`"] else []) ++ "/" :: c :: tail
       ++ (if tick2 then ["`"] else []))
    knownAgentNames
  = lit "the " ++ normalizeName (c :: tail) ++ lit " skill".
Proof.
  intros Hc Htail.
  set (t2 := if tick2 then ["`"] else []).
  set (l := (if tick1 then ["`"] else []) ++ "/" :: c :: tail ++ t2).
  assert (Hcc : isCmdChar c = true).
  { unfold isCmdChar. by rewrite Hc. }
  assert (Hbody : Forall (fun x => isCmdChar x = true \/ x = "`" \/ x = "/") l).
  { subst l t2. apply Forall_app. split; [destruct tick1; by auto|].
    constructor; [by auto|]. constructor; [by auto|].
    apply Forall_app. split; [|destruct tick2; by auto].
    eapply Forall_impl; [exact Htail|]. by auto. }
  assert (Hterm : Forall (fun x => isLineTerminator x = false) l).
  { eapply Forall_impl; [exact Hbody|]. intros x [Hx|[->| ->]]; [|done..].
    by apply cmdChar_facts in Hx as (Hx & _). }
  assert (Hno : forall x, x = "~" \/ x = "." -> x ∉ l).
  { intros x Hx Hin. rewrite Forall_forall in Hbody.
    destruct (Hbody x Hin) as [Hc'|[->| ->]].
    - apply cmdChar_facts in Hc' as (_ & H1 & H2 & _). by destruct Hx.
    - by destruct Hx.
    - by destruct Hx. }
  rewrite transform_chain.
  assert (Hrest : Forall (fun x => isLineTerminator x = false) (tail ++ t2)).
  { subst l. apply Forall_app in Hterm as [_ Hterm].
    by do 2 apply Forall_cons in Hterm as [_ Hterm]. }
  assert (Hct : isLineTerminator c = false).
  { by apply cmdChar_facts in Hcc as (Hcc & _). }
  assert (E1 : replaceAll matchTask l = l).
  { apply replaceGo_noMatch. subst l.
    destruct tick1; cbn [app matchesAnywhere];
      rewrite ?matchTask_off_line by done; by apply matchTask_nowhere. }
  rewrite E1, passesAfterTask_chain.
  rewrite (replaceAll_without "~" matchHomePath);
    [|apply needsChar_literal|by apply Hno; left].
  rewrite (replaceAll_without "." matchRepoPath);
    [|apply needsChar_literal|by apply Hno; right].
  assert (E3 : replaceAll matchSlashRef l = skillReplacement (c :: tail)).
  { apply replaceAll_whole; [subst l; by destruct tick1|].
    assert (Ht : takeWhile isCmdChar (tail ++ t2) = tail /\
                 dropWhile isCmdChar (tail ++ t2) = t2).
    { subst t2. destruct tick2.
      - by apply takeWhile_stop.
      - rewrite app_nil_r. by apply takeWhile_all. }
    destruct Ht as [Ht1 Ht2].
    subst l. unfold matchSlashRef.
    destruct tick1; cbn [app refBoundary]; rewrite Hc, Ht1, Ht2;
      subst t2; destruct tick2; cbn [length app];
      rewrite ?length_app; cbn [length]; do 2 f_equal; lia. }
  rewrite E3. apply passesAfterRefs_inert.
  unfold skillReplacement. rewrite !inert_app.
  by rewrite (nameChars_inert _ (normalizeName_chars _)).
Qed.

Lemma slash_reference_names_skill_witness :
  transformContentForKiro (lit "`/workflows:plan`") [lit "reviewer"]
  = lit "the " ++ normalizeName (lit "workflows:plan") ++ lit " skill".
Proof.
  apply (slash_reference_names_skill true true "w" (lit "orkflows:plan")
           [lit "reviewer"]).
  - reflexivity.
  - repeat constructor.
Defined.

Section Mentions.

Lemma normalizeName_last_word x :
  exists d, last (normalizeName x) = Some d /\ isWord d = true.
Proof.
  pose proof (normalizeName_chars x) as Hc.
  pose proof (normalizeName_last x) as Hl.
  pose proof (normalizeName_nonempty x) as Hne.
  destruct (last (normalizeName x)) as [d|] eqn:E.
  - exists d. split; [done|]. apply last_Some in E as [l' E].
    rewrite E in Hc. apply Forall_app in Hc as [_ Hc].
    apply Forall_cons in Hc as [Hd _].
    assert (d <> "-") by congruence. revert Hd H. clear.
    ascii_cases d; vm_compute; try done; intros _ H; by exfalso.
  - by apply last_None in E.
Qed.

Lemma firstPeer_none names (r : list ascii) :
  Forall (fun m => startsWith m r = false) names -> firstPeer names r = None.
Proof. induction 1 as [|m names Hm _ IH]; [done|]. simpl. by rewrite Hm. Qed.

(** A text around one at-sign, inert apart from it, passes the first four
    passes unchanged. *)
Lemma mention_untouched (pre body : list ascii) names :
  inert pre = true -> inert body = true ->
  transformContentForKiro (pre ++ "@" :: body) names
  = match names with
    | [] => pre ++ "@" :: body
    | _ :: _ =>
        pre ++ replaceGo (matchAgentRef names) 0 None ("@" :: body)
    end.
Proof.
  intros Hp Hb.
  assert (Hno : forall c, triggerChar c = true -> c <> "@" ->
                          c ∉ pre ++ "@" :: body).
  { intros c Hc Hne [Hin|[Heq|Hin]%elem_of_cons]%elem_of_app.
    - by apply (inert_without pre c).
    - done.
    - by apply (inert_without body c). }
  rewrite transform_chain.
  rewrite (replaceAll_without "T" matchTask);
    [|apply needsChar_task|by apply Hno].
  unfold passesAfterTask.
  rewrite (replaceAll_without "~" matchHomePath);
    [|apply needsChar_literal|by apply Hno].
  rewrite (replaceAll_without "." matchRepoPath);
    [|apply needsChar_literal|by apply Hno].
  rewrite (replaceAll_without "/" matchSlashRef);
    [|apply needsChar_slashRef|by apply Hno].
  rewrite rewriteTools_without by (repeat constructor; by apply Hno).
  destruct names as [|k ks]; [done|].
  unfold replaceAll. apply agentRef_pre. by apply inert_without.
Qed.

End Mentions.

(** X8.  A reference to a known agent is rewritten into the agent prose.
    Let [n] be the normalized name of an agent, standing in the list of
    known names behind names none of which is a prefix of the text behind
    the at-sign.  In a text that is inert apart from the reference, and in
    which no word character follows the name, the reference [@n] becomes
    "the n agent", and the text around it stays. *)
Theorem known_agent_reference_rewritten
    (x pre rest : list ascii) (before after : list (list ascii)) :
  let n := normalizeName x in
  inert pre = true -> inert rest = true ->
  isWordOpt (head rest) = false ->
  Forall (fun m => startsWith m (n ++ rest) = false) before ->
  transformContentForKiro (pre ++ "@" :: n ++ rest) (before ++ n :: after)
  = pre ++ lit "the " ++ n ++ lit " agent" ++ rest.
Proof.
  intros n Hp Hr Hw Hb.
  assert (Hn : inert n = true) by apply nameChars_inert, normalizeName_chars.
  rewrite mention_untouched by (done || by rewrite inert_app, Hn, Hr).
  destruct (before ++ n :: after) as [|k ks] eqn:En; [by destruct before|].
  rewrite <- En. f_equal.
  destruct (normalizeName_last_word x) as (d & Hd & Hdw). fold n in Hd.
  assert (E : matchAgentRef (before ++ n :: after) None ("@" :: n ++ rest)
              = Some (S (length n), agentReplacement n)).
  { unfold matchAgentRef. rewrite firstPeer_skip by done.
    cbn [firstPeer]. rewrite startsWith_app, drop_app_length.
    assert (Hl : last ("@" :: n) = Some d).
    { destruct n as [|y n']; [done|]. exact Hd. }
    rewrite Hl. unfold wordBoundary. cbn [isWordOpt]. rewrite Hdw, Hw.
    reflexivity. }
  pose proof (replaceAll_head _ "@" n rest _ E) as Hrep.
  unfold replaceAll in Hrep. rewrite Hrep.
  rewrite replaceGo_noMatch.
  2:{ eapply noMatch_without; [apply needsChar_agentRef|].
      by apply inert_without. }
  unfold agentReplacement. subst n.
  rewrite (wellFormed_fixed _ (normalizeName_wellFormed x)).
  by rewrite <- !app_assoc.
Qed.

Lemma known_agent_reference_rewritten_witness :
  transformContentForKiro (lit "ask @code-reviewer please")
    [lit "planner"; lit "code-reviewer"]
  = lit "ask the code-reviewer agent please".
Proof.
  apply (known_agent_reference_rewritten (lit "Code Reviewer") (lit "ask ")
           (lit " please") [lit "planner"] []).
  - reflexivity.
  - reflexivity.
  - reflexivity.
  - repeat constructor.
Defined.

(** X9.  A reference to an unknown agent stays as it is: in a text that is
    inert apart from one at-sign, nothing is rewritten when no known name is
    a prefix of the text behind the at-sign. *)
Theorem unknown_agent_reference_kept
    (pre rest : list ascii) (knownAgentNames : list (list ascii)) :
  inert pre = true -> inert rest = true ->
  Forall (fun m => startsWith m rest = false) knownAgentNames ->
  transformContentForKiro (pre ++ "@" :: rest) knownAgentNames
  = pre ++ "@" :: rest.
Proof.
  intros Hp Hr Hn. rewrite mention_untouched by done.
  destruct knownAgentNames as [|k ks]; [done|]. f_equal.
  cbn [replaceGo]. unfold matchAgentRef at 1.
  rewrite firstPeer_none by done. f_equal.
  apply replaceGo_noMatch.
  eapply noMatch_without; [apply needsChar_agentRef|].
  by apply inert_without.
Qed.

Lemma unknown_agent_reference_kept_witness :
  transformContentForKiro (lit "ask @unknown please") [lit "reviewer"]
  = lit "ask @unknown please".
Proof.
  apply (unknown_agent_reference_kept (lit "ask ") (lit "unknown please")
           [lit "reviewer"]).
  - reflexivity.
  - reflexivity.
  - repeat constructor.
Defined.

Section DelegateCall.

Lemma lower_facts c :
  isLower c = true ->
  isSpace c = false /\ isAgentChar c = true /\ c <> "T".
Proof. ascii_cases c; vm_compute; intros H; done. Qed.

(** The delegate-call pattern on a text that is one call. *)
Lemma matchTask_call (ws1 ws2 ws tail args : list ascii) (dash : bool)
    (c : ascii) :
  Forall (fun x => isSpace x = true) ws1 ->
  Forall (fun x => isSpace x = true) ws2 ->
  Forall (fun x => isSpace x = true) ws -> ws <> [] ->
  isLower c = true ->
  Forall (fun x => isAgentChar x = true) tail ->
  Forall (fun x => notRParen x = true) args -> args <> [] ->
  let pre := ws1 ++ (if dash then ["-"] else []) ++ ws2 in
  let l := pre ++ lit "Task" ++ ws ++ c :: tail ++ "(" :: args ++ [")"] in
  matchTask None l = Some (length l, taskReplacement pre (c :: tail) args).
Proof.
  intros H1 H2 Hw Hwne Hc Ht Ha Hane pre l.
  destruct (lower_facts c Hc) as (Hcs & _ & _).
  set (call := ws ++ c :: tail ++ "(" :: args ++ [")"]).
  assert (Ews : takeWhile isSpace call = ws /\
                dropWhile isSpace call = c :: tail ++ "(" :: args ++ [")"]).
  { by apply takeWhile_stop. }
  assert (Etl : takeWhile isAgentChar (tail ++ "(" :: args ++ [")"]) = tail /\
                dropWhile isAgentChar (tail ++ "(" :: args ++ [")"])
                = "(" :: args ++ [")"]).
  { by apply takeWhile_stop. }
  assert (Ear : takeWhile notRParen (args ++ [")"]) = args /\
                dropWhile notRParen (args ++ [")"]) = [")"]).
  { by apply takeWhile_stop. }
  destruct Ews as [Ews1 Ews2], Etl as [Etl1 Etl2], Ear as [Ear1 Ear2].
  assert (Hlen : length l
    = length pre + 4 + length ws + 1 + length tail + 1 + length args + 1).
  { subst l call. rewrite !length_app. simpl. rewrite !length_app. simpl.
    rewrite !length_app. simpl. lia. }
  rewrite Hlen. subst l pre. unfold matchTask. cbn [atLineStart].
  destruct dash.
  - change (ws1 ++ ["-"] ++ ws2) with (ws1 ++ "-" :: ws2).
    rewrite <- !app_assoc. cbn [app lit list_ascii_of_string].
    fold call.
    destruct (takeWhile_stop isSpace ws1 "-"
                (ws2 ++ "T" :: "a" :: "s" :: "k" :: call) H1 eq_refl)
      as [E1 E2].
    destruct (takeWhile_stop isSpace ws2 "T"
                ("a" :: "s" :: "k" :: call) H2 eq_refl) as [E3 E4].
    rewrite E1, E2, E3, E4, Ews1, Ews2, Hc, Etl1, Etl2, Ear1, Ear2.
    destruct ws as [|w ws']; [done|]. destruct args as [|a args']; [done|].
    reflexivity.
  - change (ws1 ++ [] ++ ws2) with (ws1 ++ ws2).
    rewrite <- !app_assoc. cbn [app lit list_ascii_of_string].
    fold call.
    assert (H12 : Forall (fun x => isSpace x = true) (ws1 ++ ws2))
      by (by apply Forall_app).
    rewrite (app_assoc ws1 ws2).
    destruct (takeWhile_stop isSpace (ws1 ++ ws2) "T"
                ("a" :: "s" :: "k" :: call) H12 eq_refl) as [E1 E2].
    rewrite E1, E2. cbn [takeWhile dropWhile isSpace].
    change (isSpace "T") with false. cbn iota.
    rewrite Ews1, Ews2, Hc, Etl1, Etl2, Ear1, Ear2.
    destruct ws as [|w ws']; [done|]. destruct args as [|a args']; [done|].
    by rewrite !app_nil_r.
Qed.

End DelegateCall.

(** X11.  A text that is one delegate call (white space, an optional hyphen
    and white space in front; the word Task; white space; an agent name of
    lower-case letters, digits and hyphens that starts with a letter; the
    arguments in parentheses) is rewritten into the delegation sentence:
    the prefix is kept, the agent is named by its normalized name, and the
    arguments, when they are inert, follow as they are, trimmed. *)
Theorem delegate_call_rewritten
    (ws1 ws2 ws tail args : list ascii) (dash : bool) (c : ascii)
    (knownAgentNames : list (list ascii)) :
  Forall (fun x => isSpace x = true) ws1 ->
  Forall (fun x => isSpace x = true) ws2 ->
  Forall (fun x => isSpace x = true) ws -> ws <> [] ->
  isLower c = true ->
  Forall (fun x => isAgentChar x = true) tail ->
  Forall (fun x => notRParen x = true) args -> args <> [] ->
  inert args = true ->
  let pre := ws1 ++ (if dash then ["-"] else []) ++ ws2 in
  transformContentForKiro
    (pre ++ lit "Task" ++ ws ++ c :: tail ++ "(" :: args ++ [")"])
    knownAgentNames
  = pre ++ lit "Use the use_subagent tool to delegate to the "
        ++ normalizeName (c :: tail) ++ lit " agent: " ++ trim args.
Proof.
  intros H1 H2 Hw Hwne Hc Ht Ha Hane Hi pre.
  rewrite transform_chain.
  rewrite (replaceAll_whole matchTask _
             (taskReplacement pre (c :: tail) args)).
  - apply passesAfterTask_inert. unfold taskReplacement, pre.
    rewrite !inert_app, (spaces_inert ws1), (spaces_inert ws2) by done.
    rewrite (nameChars_inert _ (normalizeName_chars _)).
    rewrite (trim_inert args Hi). by destruct dash.
  - intros H. apply (f_equal length) in H.
    rewrite !length_app in H. simpl in H. lia.
  - by apply matchTask_call.
Qed.

Lemma delegate_call_rewritten_witness :
  transformContentForKiro (lit "  - Task code-reviewer( check this )")
    [lit "code-reviewer"]
  = lit "  - Use the use_subagent tool to delegate to the code-reviewer agent: check this".
Proof.
  apply (delegate_call_rewritten (lit "  ") (lit " ") (lit " ")
           (lit "ode-reviewer") (lit " check this ") true "c"
           [lit "code-reviewer"]); try done; by repeat constructor.
Defined.

Section WithoutAtSign.

(** A global replacement keeps a property of the characters that the
    replacements of its matches keep. *)
Lemma replaceGo_Forall (Q : ascii -> Prop) (m : matcher) :
  (forall prev l n out, m prev l = Some (n, out) -> Forall Q l -> Forall Q out) ->
  forall l skip prev, Forall Q l -> Forall Q (replaceGo m skip prev l).
Proof.
  intros Hm. induction l as [|c t IH]; intros skip prev Hl; [done|].
  pose proof Hl as Hl'. apply Forall_cons in Hl' as [Hc Ht].
  cbn [replaceGo]. destruct skip as [|k]; [|by apply IH].
  destruct (m prev (c :: t)) as [[[|n] out]|] eqn:E.
  - apply Forall_app. split; [by eapply Hm|]. constructor; [done|by apply IH].
  - apply Forall_app. split; [by eapply Hm|]. by apply IH.
  - constructor; [done|by apply IH].
Qed.

Lemma noAt_nameChars (l : list ascii) :
  Forall (fun c => isNameChar c = true) l -> Forall (fun c => c <> "@") l.
Proof. intros H. eapply Forall_impl; [exact H|]. by intros c Hc ->. Qed.

Lemma noAt_spaces (l : list ascii) :
  Forall (fun c => isSpace c = true) l -> Forall (fun c => c <> "@") l.
Proof. intros H. eapply Forall_impl; [exact H|]. by intros c Hc ->. Qed.

Lemma noAt_sub (l k : list ascii) :
  (forall c, c ∈ k -> c ∈ l) ->
  Forall (fun c => c <> "@") l -> Forall (fun c => c <> "@") k.
Proof.
  rewrite !Forall_forall. intros Hs H c Hc. by apply H, Hs.
Qed.

Lemma elem_of_takeWhile p (c : ascii) (l : list ascii) :
  c ∈ takeWhile p l -> c ∈ l.
Proof.
  intros H. rewrite <- (take_drop_while p l). apply elem_of_app. by left.
Qed.

Lemma elem_of_trim (c : ascii) (l : list ascii) : c ∈ trim l -> c ∈ l.
Proof.
  unfold trim, trimEnd, trimStart. intros H.
  apply list_elem_of_In, in_rev, list_elem_of_In in H.
  apply elem_of_dropWhile in H.
  apply list_elem_of_In, in_rev, list_elem_of_In in H.
  by apply elem_of_dropWhile in H.
Qed.

Lemma matchTask_noAt prev l n out :
  matchTask prev l = Some (n, out) ->
  Forall (fun c => c <> "@") l -> Forall (fun c => c <> "@") out.
Proof.
  unfold matchTask. destruct (atLineStart prev); [|done].
  set (r1 := dropWhile isSpace l).
  set (r2 := match r1 with "-" :: t => t | _ => r1 end).
  set (dash := match r1 with "-" :: _ => ["-"] | _ => [] end).
  assert (Hr2 : forall c, c ∈ r2 -> c ∈ l).
  { intros c Hc. apply (elem_of_dropWhile isSpace). fold r1.
    subst r2. destruct r1 as [|d t]; [done|].
    destruct (Ascii.eqb_spec d "-") as [->|Hne]; [by right|].
    revert Hc. ascii_cases d; try done; intros _; by exfalso. }
  assert (Hdash : Forall (fun c => c <> "@") dash).
  { subst dash. destruct r1 as [|d t]; [done|].
    destruct (Ascii.eqb_spec d "-") as [->|Hne]; [by repeat constructor|].
    ascii_cases d; try done; by exfalso. }
  clearbody dash.
  destruct (dropWhile isSpace r2) as [|c0 r3] eqn:E3; [done|].
  assert (Hr3 : forall c, c ∈ r3 -> c ∈ l).
  { intros c Hc. apply Hr2, (elem_of_dropWhile isSpace). rewrite E3.
    by right. }
  intros H Hl. revert H.
  destruct (Ascii.eqb_spec c0 "T") as [->|Hne];
    [|ascii_cases c0; try done; by exfalso].
  destruct r3 as [|a1 [|a2 [|a3 r4]]]; try done.
  { by ascii_cases a1. } { by ascii_cases a1; ascii_cases a2. }
  destruct (takeWhile isSpace r4) as [|w ws] eqn:Ew.
  { ascii_cases a1; try done; ascii_cases a2; try done; by ascii_cases a3. }
  destruct (dropWhile isSpace r4) as [|c r5] eqn:E5.
  { ascii_cases a1; try done; ascii_cases a2; try done; by ascii_cases a3. }
  destruct (isLower c) eqn:Ec.
  2:{ ascii_cases a1; try done; ascii_cases a2; try done; by ascii_cases a3. }
  destruct (dropWhile isAgentChar r5) as [|p r6] eqn:E6.
  { ascii_cases a1; try done; ascii_cases a2; try done; by ascii_cases a3. }
  assert (Hr6 : forall x, x ∈ r6 -> x ∈ l).
  { intros x Hx. apply Hr3. do 3 right.
    apply (elem_of_dropWhile isSpace). rewrite E5. right.
    apply (elem_of_dropWhile isAgentChar). rewrite E6. by right. }
  intros H.
  assert (Hout : out = taskReplacement
            (takeWhile isSpace l ++ dash ++ takeWhile isSpace r2)
            (c :: takeWhile isAgentChar r5) (takeWhile notRParen r6)).
  { revert H. ascii_cases a1; try done; ascii_cases a2; try done;
      ascii_cases a3; try done; ascii_cases p; try done;
      destruct (takeWhile notRParen r6) as [|y ys]; try done;
      destruct (dropWhile notRParen r6) as [|z zs]; try done;
      ascii_cases z; try done; by intros [= _ <-]. }
  rewrite Hout. unfold taskReplacement.
  rewrite !Forall_app. repeat split.
  - apply noAt_spaces, takeWhile_Forall.
  - done.
  - apply noAt_spaces, takeWhile_Forall.
  - by repeat constructor.
  - apply noAt_nameChars, normalizeName_chars.
  - by repeat constructor.
  - eapply noAt_sub; [|exact Hl]. intros x Hx%elem_of_trim.
    by apply elem_of_takeWhile, Hr6 in Hx.
Qed.

End WithoutAtSign.

(** X10.  The known agent names matter only for a body with an at-sign:
    a body without one is transformed as with no known names at all. *)
Theorem known_names_matter_only_with_at_sign
    (body : list ascii) (knownAgentNames : list (list ascii)) :
  "@" ∉ body ->
  transformContentForKiro body knownAgentNames
  = transformContentForKiro body [].
Proof.
  intros Hno.
  assert (H0 : Forall (fun c => c <> "@") body).
  { apply Forall_forall. by intros c Hc ->. }
  assert (Hlit : forall bnd pat repl l,
    Forall (fun c => c <> "@") repl -> Forall (fun c => c <> "@") l ->
    Forall (fun c => c <> "@") (replaceAll (matchLiteral bnd pat repl) l)).
  { intros bnd pat repl l Hr Hl. apply replaceGo_Forall; [|done].
    intros prev k n out. unfold matchLiteral.
    destruct (_ && _); [|done]. by intros [= _ <-]. }
  assert (H1 : Forall (fun c => c <> "@") (replaceAll matchTask body)).
  { apply replaceGo_Forall; [apply matchTask_noAt|done]. }
  assert (H2 : Forall (fun c => c <> "@")
                 (replaceAll matchRepoPath
                    (replaceAll matchHomePath (replaceAll matchTask body)))).
  { apply Hlit; [by repeat constructor|].
    apply Hlit; [by repeat constructor|done]. }
  assert (H3 : Forall (fun c => c <> "@")
                 (replaceAll matchSlashRef
                    (replaceAll matchRepoPath
                       (replaceAll matchHomePath
                          (replaceAll matchTask body))))).
  { apply replaceGo_Forall; [|done].
    intros prev k n out. unfold matchSlashRef.
    destruct (refBoundary prev); [|done].
    destruct (match k with "`" :: t => t | _ => k end)
      as [|a1 [|c r2]]; try done.
    { by ascii_cases a1. }
    destruct (Ascii.eqb_spec a1 "/") as [->|Hne];
      [|ascii_cases a1; try done; by exfalso].
    destruct (isAlpha c); [|done]. intros [= _ <-] _.
    unfold skillReplacement. rewrite !Forall_app.
    split; [by repeat constructor|].
    split; [apply noAt_nameChars, normalizeName_chars|by repeat constructor]. }
  assert (H4 : forall tools l,
    Forall (fun p => Forall (fun c => c <> "@") (snd p)) tools ->
    Forall (fun c => c <> "@") l ->
    Forall (fun c => c <> "@")
      (fold_left (fun acc p => replaceAll (matchTool (fst p) (snd p)) acc)
         tools l)).
  { induction tools as [|p tools IH]; intros l Ht Hl; [done|].
    apply Forall_cons in Ht as [Hp Ht]. simpl. apply IH; [done|].
    apply replaceGo_Forall; [|done].
    intros prev k n out. unfold matchTool.
    destruct (_ && _); [|done]. destruct (_ && _); [|done].
    by intros [= _ <-]. }
  unfold transformContentForKiro.
  destruct knownAgentNames as [|k ks]; [done|].
  apply (replaceAll_without "@"); [apply needsChar_agentRef|].
  intros Hin.
  assert (H5 := H4 CLAUDE_TO_KIRO_TOOLS _
                  ltac:(by repeat constructor) H3).
  rewrite Forall_forall in H5. by apply (H5 "@").
Qed.

Lemma known_names_matter_only_with_at_sign_witness :
  transformContentForKiro busyBody' [lit "reviewer"]
  = transformContentForKiro busyBody' [].
Proof.
  apply known_names_matter_only_with_at_sign.
  intros Hin. apply list_elem_of_In in Hin. vm_compute in Hin.
  repeat (destruct Hin as [Hin|Hin]; [discriminate Hin|]). done.
Defined.

(** ** The converter as a whole *)

Section ConverterMore.

Variable formatFrontmatter :
  list ascii -> list ascii -> list ascii -> list ascii.

(** The bundle and the output of a conversion, field by field. *)
Lemma convert_shape plugin :
  let names := map (fun a => normalizeName (agent_name a)) (agents plugin) in
  let dirs := map (fun skill => {| kdir_name := skill_name skill;
                                   kdir_sourceDir := skill_sourceDir skill |})
                (skills plugin) in
  exists sks,
    mapAlloc (fun c => convertCommandToSkill formatFrontmatter c names)
      (commands plugin) (reserveSkillNames dirs)
    = Some (sks, list_to_set (kskill_name <$> sks) ∪ reserveSkillNames dirs) /\
    Forall2 allocatedFor (commands plugin) sks /\
    convertClaudeToKiro formatFrontmatter plugin
    = Some ({| bundle_agents :=
                 map (fun agent => convertAgentToKiroAgent agent names)
                   (agents plugin);
               bundle_generatedSkills := sks;
               bundle_skillDirs := dirs;
               bundle_steeringFiles := buildSteeringFiles plugin names;
               bundle_mcpServers :=
                 fst (convertMcpServers (mcpServers plugin)) |},
            snd (convertMcpServers (mcpServers plugin))
              ++ match hooks plugin with
                 | Some (_ :: _) => [hooksWarning]
                 | _ => []
                 end).
Proof.
  intros names dirs.
  destruct (mapAlloc_commands formatFrontmatter (commands plugin) names
              (reserveSkillNames dirs)) as (sks & E & Hf & _).
  exists sks. split; [exact E|]. split; [exact Hf|].
  unfold convertClaudeToKiro. fold names. fold dirs. rewrite E.
  destruct (convertMcpServers (mcpServers plugin)) as [servers out].
  simpl. destruct (hooks plugin) as [[|h hs]|]; by rewrite ?app_nil_r.
Qed.

Lemma steering_safe plugin names :
  Forall (fun f => unsafeName (ksteer_name f) = false)
    (buildSteeringFiles plugin names).
Proof.
  unfold buildSteeringFiles. destruct (claudeMd plugin) as [content|]; [|done].
  destruct (_ || _); [done|]. by repeat constructor.
Qed.

(** The records of a converted bundle other than the pass-through skill
    directories have safe identifiers. *)
Lemma converted_records_safe plugin bundle out r :
  convertClaudeToKiro formatFrontmatter plugin = Some (bundle, out) ->
  r ∈ bundleRecords bundle ->
  unsafeName (recordName r) = true ->
  exists skill, skill ∈ skills plugin /\ r = RSkillDir
    {| kdir_name := skill_name skill;
       kdir_sourceDir := skill_sourceDir skill |}.
Proof.
  destruct (convert_shape plugin) as (sks & _ & Hf & E).
  rewrite E. intros [= <- _]. unfold bundleRecords. cbn.
  rewrite !elem_of_app. intros [Hr|[Hr|[Hr|Hr]]] Hu.
  - apply list_elem_of_In, in_map_iff in Hr as (a & <- & Ha).
    apply in_map_iff in Ha as (agent & <- & _). simpl in Hu.
    by rewrite (nameChars_safe _ (normalizeName_chars _)) in Hu.
  - apply list_elem_of_In, in_map_iff in Hr as (sk & <- & Hsk).
    apply list_elem_of_In, list_elem_of_lookup in Hsk as [i Hi].
    destruct (Forall2_lookup_r _ _ _ _ _ Hf Hi) as (c & _ & Hal).
    simpl in Hu. by rewrite (nameChars_safe _ (allocatedFor_chars _ _ Hal)) in Hu.
  - apply list_elem_of_In, in_map_iff in Hr as (d & <- & Hd).
    apply in_map_iff in Hd as (skill & <- & Hs).
    exists skill. split; [by apply list_elem_of_In|done].
  - apply list_elem_of_In, in_map_iff in Hr as (f & <- & Hf').
    pose proof (steering_safe plugin
      (map (fun a => normalizeName (agent_name a)) (agents plugin))) as Hs.
    rewrite Forall_forall in Hs. apply list_elem_of_In, Hs in Hf'.
    simpl in Hu. congruence.
Qed.

End ConverterMore.

Section WriterMore.

Variable resolvesInside : path -> path -> bool.
Variable backupPathOf : path -> list ascii.

(** The settings step raises in one case only. *)
Lemma writeMcp_done paths existing servers :
  existing <> Parsed JNull ->
  exists events, writeMcp backupPathOf paths existing servers
                 = (events, Done tt).
Proof.
  intros Hne. unfold writeMcp. destruct (0 <? size servers)%nat; [|by eexists].
  destruct existing as [| |v]; [by eexists..|].
  destruct v; [by destruct Hne|by eexists..].
Qed.

Lemma write_safe_done outputRoot existing bundle :
  Forall (fun r => unsafeName (recordName r) = false) (bundleRecords bundle) ->
  existing <> Parsed JNull ->
  exists events,
    writeKiroBundle resolvesInside backupPathOf outputRoot existing bundle
    = (events, Done tt).
Proof.
  intros Hs Hne. rewrite writeKiroBundle_records.
  rewrite (forEach_all_safe resolvesInside _ _ Hs).
  destruct (writeMcp_done (resolveKiroPaths outputRoot) existing
              (bundle_mcpServers bundle) Hne) as [t Et].
  unfold wbind. simpl. rewrite Et. by eexists.
Qed.

End WriterMore.

(** X12.  Conversion and writing compose without failure: when no
    pass-through skill of the plugin has an unsafe name, and the existing
    settings are not the JSON value null, writing the converted bundle ends
    without raising. *)
Theorem converted_bundle_is_written
    (formatFrontmatter : list ascii -> list ascii -> list ascii -> list ascii)
    (resolvesInside : path -> path -> bool)
    (backupPathOf : path -> list ascii)
    (plugin : ClaudePlugin) (outputRoot : path) (existing : existingFile) :
  Forall (fun skill => unsafeName (skill_name skill) = false) (skills plugin) ->
  existing <> Parsed JNull ->
  exists bundle out events,
    convertClaudeToKiro formatFrontmatter plugin = Some (bundle, out) /\
    writeKiroBundle resolvesInside backupPathOf outputRoot existing bundle
    = (events, Done tt).
Proof.
  intros Hs Hne.
  destruct (convert_shape formatFrontmatter plugin) as (sks & _ & _ & E).
  eexists _, _. 
  assert (Hsafe : Forall (fun r => unsafeName (recordName r) = false)
    (bundleRecords
       {| bundle_agents :=
            map (fun agent => convertAgentToKiroAgent agent
                   (map (fun a => normalizeName (agent_name a))
                      (agents plugin))) (agents plugin);
          bundle_generatedSkills := sks;
          bundle_skillDirs :=
            map (fun skill => {| kdir_name := skill_name skill;
                                 kdir_sourceDir := skill_sourceDir skill |})
              (skills plugin);
          bundle_steeringFiles :=
            buildSteeringFiles plugin
              (map (fun a => normalizeName (agent_name a)) (agents plugin));
          bundle_mcpServers :=
            fst (convertMcpServers (mcpServers plugin)) |})).
  { apply Forall_forall. intros r Hr.
    destruct (unsafeName (recordName r)) eqn:Hu; [|done].
    destruct (converted_records_safe formatFrontmatter plugin _ _ r E Hr Hu)
      as (skill & Hin & ->). simpl in Hu.
    rewrite Forall_forall in Hs. by rewrite (Hs skill Hin) in Hu. }
  destruct (write_safe_done resolvesInside backupPathOf outputRoot existing
              _ Hsafe Hne) as [events Ew].
  exists events. split; [exact E|exact Ew].
Qed.

Lemma converted_bundle_is_written_witness :
  exists bundle out events,
    convertClaudeToKiro plainFrontmatter mySkill = Some (bundle, out) /\
    writeKiroBundle alwaysInside sampleBackupPath [lit "out"] Unparseable
      bundle
    = (events, Done tt).
Proof.
  apply (converted_bundle_is_written plainFrontmatter alwaysInside
           sampleBackupPath mySkill [lit "out"] Unparseable).
  - by repeat constructor.
  - discriminate.
Defined.

(** X13.  When writing a converted bundle raises for an unsafe identifier,
    the identifier is the raw name of a pass-through skill of the plugin:
    if some pass-through skill has an unsafe name, the write raises with the
    message for the skill directory of such a skill. *)
Theorem converted_bundle_raises_for_skill_only
    (formatFrontmatter : list ascii -> list ascii -> list ascii -> list ascii)
    (resolvesInside : path -> path -> bool)
    (backupPathOf : path -> list ascii)
    (plugin : ClaudePlugin) (outputRoot : path) (existing : existingFile)
    (bad : ClaudeSkill) :
  bad ∈ skills plugin -> unsafeName (skill_name bad) = true ->
  exists bundle out events skill,
    convertClaudeToKiro formatFrontmatter plugin = Some (bundle, out) /\
    skill ∈ skills plugin /\ unsafeName (skill_name skill) = true /\
    writeKiroBundle resolvesInside backupPathOf outputRoot existing bundle
    = (events, Raised (unsafeMessage (skill_name skill)
                         (lit "skill directory"))).
Proof.
  intros Hbad Hu.
  destruct (convert_shape formatFrontmatter plugin) as (sks & _ & _ & E).
  eexists _, _.
  set (bundle := Build_KiroBundle _ _ _ _ _) in E.
  set (r := RSkillDir {| kdir_name := skill_name bad;
                         kdir_sourceDir := skill_sourceDir bad |}).
  assert (Hr : r ∈ bundleRecords bundle).
  { unfold bundleRecords, bundle. cbn. rewrite !elem_of_app.
    right. right. left. apply list_elem_of_In. unfold r.
    apply (in_map RSkillDir).
    apply (in_map (fun skill => {| kdir_name := skill_name skill;
                                   kdir_sourceDir := skill_sourceDir skill |})).
    by apply list_elem_of_In. }
  apply list_elem_of_lookup in Hr as [i Hi].
  destruct (forEach_first_unsafe resolvesInside
              (resolveKiroPaths outputRoot) _ i r Hi Hu)
    as (k & r0 & _ & Hk & Hu0 & _ & Ef).
  destruct (converted_records_safe formatFrontmatter plugin bundle _ r0 E)
    as (skill & Hin & ->); [by eapply list_elem_of_lookup_2|done|].
  eexists _, skill. split; [exact E|]. split; [done|]. split; [exact Hu0|].
  subst bundle. rewrite writeKiroBundle_records, Ef. reflexivity.
Qed.

Lemma converted_bundle_raises_for_skill_only_witness :
  exists bundle out events skill,
    convertClaudeToKiro plainFrontmatter slashSkill = Some (bundle, out) /\
    skill ∈ skills slashSkill /\ unsafeName (skill_name skill) = true /\
    writeKiroBundle alwaysInside sampleBackupPath [lit "out"] NoFile bundle
    = (events, Raised (unsafeMessage (skill_name skill)
                         (lit "skill directory"))).
Proof.
  apply (converted_bundle_raises_for_skill_only plainFrontmatter alwaysInside
           sampleBackupPath slashSkill [lit "out"] NoFile
           (skillNamed (lit "docs/writer"))).
  - left.
  - reflexivity.
Defined.
